(** * celery-prometheus-exporter: a shallow embedding of the event pipeline,
    the queue sampler, the worker sampler and the baseline reset of
    [celery_prometheus_exporter.py], with the parts of celery and kombu it
    calls ([celery.states], [celery.events.state.State._event],
    [celery.events.state.Task.event], [kombu.utils.functional.LRUCache]).

    Conventions of the embedding:
    - Python strings are [string]; event timestamps and gauge values are [Z]
      (the program only adds, subtracts and compares them).
    - A Python [dict] that is only looked up is a [gmap]; an [OrderedDict]
      whose order matters (the LRU cache) is an association list, oldest
      entry first.
    - An event is a Python dict; a key that may be absent is an [option]
      field ([None] = key absent).
    - Exceptions are values of [exn]; code that mutates state and may raise
      runs in the state-and-exception monad [SE] below, where the effects done
      before a raise persist, as they do in Python. *)

From Stdlib Require Import String Ascii ZArith List Bool Lia.
From stdpp Require Import base gmap sets list strings pretty.

Import ListNotations.
Open Scope string_scope.
Open Scope list_scope.
Open Scope Z_scope.

(* ------------------------------------------------------------------ *)
(** ** [celery.states] *)

Definition PENDING  := "PENDING".
Definition RECEIVED := "RECEIVED".
Definition STARTED  := "STARTED".
Definition SUCCESS  := "SUCCESS".
Definition FAILURE  := "FAILURE".
Definition REVOKED  := "REVOKED".
Definition REJECTED := "REJECTED".
Definition RETRY    := "RETRY".
Definition IGNORED  := "IGNORED".

Definition READY_STATES : list string := [SUCCESS; FAILURE; REVOKED].

(** [celery.states.ALL_STATES]: [REJECTED] and [IGNORED] are not in it. *)
Definition ALL_STATES : list string :=
  [PENDING; RECEIVED; STARTED; SUCCESS; FAILURE; RETRY; REVOKED].

(** [state in celery.states.READY_STATES] *)
Definition is_ready (s : string) : bool := existsb (String.eqb s) READY_STATES.

(** [PRECEDENCE] and [precedence]: the index of a state in
    [['SUCCESS', 'FAILURE', None, 'REVOKED', 'STARTED', 'RECEIVED',
    'REJECTED', 'RETRY', 'PENDING']], unknown states ranking as [None]. *)
Definition precedence (s : string) : Z :=
  if String.eqb s SUCCESS then 0
  else if String.eqb s FAILURE then 1
  else if String.eqb s REVOKED then 3
  else if String.eqb s STARTED then 4
  else if String.eqb s RECEIVED then 5
  else if String.eqb s REJECTED then 6
  else if String.eqb s RETRY then 7
  else if String.eqb s PENDING then 8
  else 2.

(** [celery.events.state.TASK_EVENT_TO_STATE]; [None] is a missing key. *)
Definition TASK_EVENT_TO_STATE (subject : string) : option string :=
  if String.eqb subject "sent" then Some PENDING
  else if String.eqb subject "received" then Some RECEIVED
  else if String.eqb subject "started" then Some STARTED
  else if String.eqb subject "failed" then Some FAILURE
  else if String.eqb subject "retried" then Some RETRY
  else if String.eqb subject "succeeded" then Some SUCCESS
  else if String.eqb subject "revoked" then Some REVOKED
  else if String.eqb subject "rejected" then Some REJECTED
  else None.

(* ------------------------------------------------------------------ *)
(** ** String helpers for the Python string operations used *)

(** [celery.events.group_from]: [type_.split('-', 1)[0]]. *)
Fixpoint group_from (s : string) : string :=
  match s with
  | EmptyString => EmptyString
  | String c r => if Ascii.eqb c "-"%char then EmptyString else String c (group_from r)
  end.

(** The subject of [type_.partition('-')], used by [State._event]. *)
Fixpoint partition_subject (s : string) : string :=
  match s with
  | EmptyString => EmptyString
  | String c r => if Ascii.eqb c "-"%char then r else partition_subject r
  end.

(** [s[n:]] *)
Fixpoint py_slice_from (n : nat) (s : string) : string :=
  match n, s with
  | O, _ => s
  | _, EmptyString => EmptyString
  | S n', String _ r => py_slice_from n' r
  end.

(** [s.upper()] on ASCII. *)
Definition upper_char (c : ascii) : ascii :=
  let k := nat_of_ascii c in
  if (Nat.leb 97 k && Nat.leb k 122)%bool then ascii_of_nat (k - 32) else c.

Fixpoint py_upper (s : string) : string :=
  match s with
  | EmptyString => EmptyString
  | String c r => String (upper_char c) (py_upper r)
  end.

(** Python truthiness of an optional string attribute ([if t.name]). *)
Definition truthy_name (o : option string) : bool :=
  match o with Some n => negb (String.eqb n "") | None => false end.

(** prometheus_client turns every label value into [str(value)];
    [str(None)] is ["None"]. *)
Definition label_of_name (o : option string) : string :=
  match o with Some n => n | None => "None" end.

(* ------------------------------------------------------------------ *)
(** ** Events and task records *)

(** A decoded event dict: the keys the program reads. *)
Record Event := mkEvent {
  ev_type : string;
  ev_uuid : option string;
  ev_hostname : option string;
  ev_timestamp : option Z;
  ev_local_received : option Z;
  ev_clock : option Z;
  ev_name : option string;
  ev_runtime : option Z
}.

(** [celery.events.state.Task]: the attributes the program reads. *)
Record Task := mkTask {
  t_name : option string;
  t_state : string;
  t_local_received : option Z
}.

(** [Task(uuid, cluster_state=self)]: state [PENDING], no other field yet. *)
Definition new_Task : Task := mkTask None PENDING None.

(** [self.__dict__.update(fields)] restricted to the keys [keep] accepts. *)
Definition merge_fields (keep : string -> bool) (e : Event) (t : Task) : Task :=
  mkTask
    (if keep "name" then match ev_name e with Some n => Some n | None => t_name t end
     else t_name t)
    (t_state t)
    (if keep "local_received" then
       match ev_local_received e with Some x => Some x | None => t_local_received t end
     else t_local_received t).

Definition set_t_state (s : string) (t : Task) : Task :=
  mkTask (t_name t) s (t_local_received t).

(** [Task.merge_rules] *)
Definition merge_rules (s : string) : option (list string) :=
  if String.eqb s RECEIVED then
    Some ["name"; "args"; "kwargs"; "parent_id"; "root_id"; "retries"; "eta"; "expires"]
  else None.

(** [Task.event(type_, timestamp, local_received, fields)]: a state of lower
    precedence than the current one (outside RETRY) does not overwrite the
    state, and only its merge-rule fields are kept. *)
Definition task_event (subject : string) (e : Event) (t : Task) : Task :=
  let state := match TASK_EVENT_TO_STATE subject with
               | Some s => s | None => py_upper subject end in
  if (negb (String.eqb state RETRY) && negb (String.eqb (t_state t) RETRY)
      && (precedence (t_state t) <? precedence state))%bool then
    match merge_rules state with
    | Some keep => merge_fields (fun k => existsb (String.eqb k) keep) e t
    | None => merge_fields (fun _ => true) e t
    end
  else set_t_state state (merge_fields (fun _ => true) e t).

(* ------------------------------------------------------------------ *)
(** ** Exceptions *)

Inductive exn :=
| KeyError | AttributeError | TypeError | StopIteration | ValueError | IndexError
| UnicodeDecodeError.

Definition exn_eqb (a b : exn) : bool :=
  match a, b with
  | KeyError, KeyError | AttributeError, AttributeError
  | TypeError, TypeError | StopIteration, StopIteration
  | ValueError, ValueError | IndexError, IndexError
  | UnicodeDecodeError, UnicodeDecodeError => true
  | _, _ => false
  end.

(* ------------------------------------------------------------------ *)
(** ** A state-and-exception monad

    [SE S A] runs on a state [S] and either returns an [A] or raises; the
    state reached before a raise is kept, as in Python. *)

Definition SE (S A : Type) : Type := S -> S * (exn + A).

Definition ret {S A} (a : A) : SE S A := fun s => (s, inr a).

Definition bind {S A B} (m : SE S A) (k : A -> SE S B) : SE S B :=
  fun s => match m s with
           | (s', inr a) => k a s'
           | (s', inl x) => (s', inl x)
           end.

Definition raise {S A} (x : exn) : SE S A := fun s => (s, inl x).

Definition modify {S} (f : S -> S) : SE S unit := fun s => (f s, inr tt).

(** [try: m except <handled>: h] *)
Definition try_except {S A} (m : SE S A) (handled : exn -> bool) (h : SE S A) : SE S A :=
  fun s => match m s with
           | (s', inl x) => if handled x then h s' else (s', inl x)
           | r => r
           end.

Notation "'let*' x := m 'in' k" := (bind m (fun x => k))
  (at level 200, x name, m at level 100, k at level 200).

Definition is_KeyError (x : exn) : bool := exn_eqb x KeyError.

(* ------------------------------------------------------------------ *)
(** ** [kombu.utils.functional.LRUCache]

    [data] is the underlying [OrderedDict], least recently used first. *)

Record LRUCache := mkLRU { limit : Z; data : list (string * Task) }.

Fixpoint od_lookup (k : string) (d : list (string * Task)) : option Task :=
  match d with
  | [] => None
  | (k', v) :: r => if String.eqb k' k then Some v else od_lookup k r
  end.

(** [del d[k]] on an [OrderedDict] (the key being present). *)
Definition od_delete (k : string) (d : list (string * Task)) : list (string * Task) :=
  List.filter (fun p => negb (String.eqb (fst p) k)) d.

(** [d[k] = v] on an [OrderedDict]: a present key keeps its position, a new
    key goes last. *)
Fixpoint od_set (k : string) (v : Task) (d : list (string * Task)) : list (string * Task) :=
  match d with
  | [] => [(k, v)]
  | (k', v') :: r => if String.eqb k' k then (k, v) :: r else (k', v') :: od_set k v r
  end.

(** [__setitem__]: [if self.limit and len(self.data) >= self.limit:
    self.data.pop(next(iter(self.data)))], then [self.data[key] = value]. *)
Definition lru_setitem (k : string) (v : Task) : SE LRUCache unit := fun c =>
  if (negb (limit c =? 0) && (limit c <=? Z.of_nat (length (data c))))%bool then
    match data c with
    | [] => (c, inl StopIteration)
    | (k0, _) :: _ => (mkLRU (limit c) (od_set k v (od_delete k0 (data c))), inr tt)
    end
  else (mkLRU (limit c) (od_set k v (data c)), inr tt).

(** [__getitem__]: [value = self[key] = self.data.pop(key)]; a hit moves
    the key to the most recently used end. *)
Definition lru_getitem (k : string) : SE LRUCache Task := fun c =>
  match od_lookup k (data c) with
  | None => (c, inl KeyError)
  | Some v => (let* _ := lru_setitem k v in ret v) (mkLRU (limit c) (od_delete k (data c)))
  end.

(** [__delitem__]: [del self.data[key]]. *)
Definition lru_delitem (k : string) : SE LRUCache unit := fun c =>
  match od_lookup k (data c) with
  | None => (c, inl KeyError)
  | Some _ => (mkLRU (limit c) (od_delete k (data c)), inr tt)
  end.

(** [MutableMapping.pop(key)]: [value = self[key]; del self[key]]. *)
Definition lru_pop (k : string) : SE LRUCache Task :=
  let* v := lru_getitem k in
  let* _ := lru_delitem k in
  ret v.

(* ------------------------------------------------------------------ *)
(** ** [celery.events.state.State._event], task branch *)

(** [get_task = tasks.data.__getitem__]: a read of the [OrderedDict] under
    the cache, which leaves the LRU order as it is. *)
Definition get_task (k : string) : SE LRUCache Task := fun c =>
  match od_lookup k (data c) with
  | Some t => (c, inr t)
  | None => (c, inl KeyError)
  end.

(** [State.heap_multiplier] *)
Definition heap_multiplier : Z := 4.

(** The task-heap step of [_event]: [heaps = len(taskheap); if heaps + 1 >
    max_events_in_heap: th_pop(0)], where [max_events_in_heap =
    max_tasks_in_memory * heap_multiplier] and [max_tasks_in_memory] is the
    limit of [tasks]. The heap holds weak references that nothing the
    exporter reads uses; only its size matters, through this pop. [_event]
    is the only code that changes the heap, which starts empty and grows
    only by the append that follows this step. So while
    [max_events_in_heap <= 0] the pop always meets an empty heap and raises
    [IndexError] (the heap stays empty); with a positive bound the pop only
    runs on a heap of at least [max_events_in_heap >= 1] entries and
    succeeds. *)
Definition heap_step : SE LRUCache unit := fun c =>
  if limit c * heap_multiplier <=? 0 then (c, inl IndexError) else (c, inr tt).

(** [(uuid, hostname, timestamp, local_received, clock) = tfields(event)],
    then [task = get_task(uuid)], or on [KeyError]
    [task = tasks[uuid] = Task(uuid, cluster_state=self)]; then the heap
    step; then [task.event(subject, timestamp, local_received, event)],
    which mutates the record in place, at its position in the cache. The
    worker and type bookkeeping of [_event] does not touch [tasks], raises
    nothing, and is left out. *)
Definition state_event (e : Event) : SE LRUCache unit :=
  match ev_uuid e, ev_hostname e, ev_timestamp e, ev_local_received e, ev_clock e with
  | Some uuid, Some _, Some _, Some _, Some _ =>
      let subject := partition_subject (ev_type e) in
      let* task := try_except (get_task uuid) is_KeyError
                     (let* _ := lru_setitem uuid new_Task in ret new_Task) in
      let* _ := heap_step in
      modify (fun c => mkLRU (limit c) (od_set uuid (task_event subject e task) (data c)))
  | _, _, _, _, _ => raise KeyError
  end.

(* ------------------------------------------------------------------ *)
(** ** Process state: the [MonitorThread] fields and the metric surfaces

    A labelled gauge is the map from its label tuples to the values of the
    series created so far ([labels(...)] creates a series at 0); a
    histogram is the list of its observations, each with its label. *)

Record World := mkWorld {
  state_tasks : LRUCache;                      (** [self._state.tasks] *)
  known_states : gset string;                  (** [self._known_states] *)
  known_states_names : gset (string * string); (** [self._known_states_names] *)
  TASKS : gmap string Z;
  TASKS_NAME : gmap (string * string) Z;
  TASKS_RUNTIME : list (string * Z);
  WORKERS : Z;
  LATENCY : list Z;
  QUEUE_SIZE : gmap string Z;
  QUEUE_TASKS : gmap (string * string) Z
}.

Definition upd_state_tasks (f : LRUCache -> LRUCache) (w : World) : World :=
  mkWorld (f (state_tasks w)) (known_states w) (known_states_names w) (TASKS w)
    (TASKS_NAME w) (TASKS_RUNTIME w) (WORKERS w) (LATENCY w) (QUEUE_SIZE w) (QUEUE_TASKS w).
Definition upd_TASKS (f : gmap string Z -> gmap string Z) (w : World) : World :=
  mkWorld (state_tasks w) (known_states w) (known_states_names w) (f (TASKS w))
    (TASKS_NAME w) (TASKS_RUNTIME w) (WORKERS w) (LATENCY w) (QUEUE_SIZE w) (QUEUE_TASKS w).
Definition upd_TASKS_NAME (f : gmap (string * string) Z -> gmap (string * string) Z)
    (w : World) : World :=
  mkWorld (state_tasks w) (known_states w) (known_states_names w) (TASKS w)
    (f (TASKS_NAME w)) (TASKS_RUNTIME w) (WORKERS w) (LATENCY w) (QUEUE_SIZE w) (QUEUE_TASKS w).
Definition upd_TASKS_RUNTIME (f : list (string * Z) -> list (string * Z)) (w : World) : World :=
  mkWorld (state_tasks w) (known_states w) (known_states_names w) (TASKS w)
    (TASKS_NAME w) (f (TASKS_RUNTIME w)) (WORKERS w) (LATENCY w) (QUEUE_SIZE w) (QUEUE_TASKS w).
Definition upd_WORKERS (f : Z -> Z) (w : World) : World :=
  mkWorld (state_tasks w) (known_states w) (known_states_names w) (TASKS w)
    (TASKS_NAME w) (TASKS_RUNTIME w) (f (WORKERS w)) (LATENCY w) (QUEUE_SIZE w) (QUEUE_TASKS w).
Definition upd_LATENCY (f : list Z -> list Z) (w : World) : World :=
  mkWorld (state_tasks w) (known_states w) (known_states_names w) (TASKS w)
    (TASKS_NAME w) (TASKS_RUNTIME w) (WORKERS w) (f (LATENCY w)) (QUEUE_SIZE w) (QUEUE_TASKS w).
Definition upd_QUEUES (fs : gmap string Z -> gmap string Z)
    (ft : gmap (string * string) Z -> gmap (string * string) Z) (w : World) : World :=
  mkWorld (state_tasks w) (known_states w) (known_states_names w) (TASKS w)
    (TASKS_NAME w) (TASKS_RUNTIME w) (WORKERS w) (LATENCY w) (fs (QUEUE_SIZE w)) (ft (QUEUE_TASKS w)).

(** Runs a cache operation on [self._state.tasks]. *)
Definition on_cache {A} (m : SE LRUCache A) : SE World A := fun w =>
  let (c', r) := m (state_tasks w) in (upd_state_tasks (fun _ => c') w, r).

(** The value of a gauge series; a series not created yet reads 0. *)
Definition gval {K} `{Countable K} (g : gmap K Z) (k : K) : Z :=
  match g !! k with Some v => v | None => 0 end.

(** [G.labels(k).inc()] *)
Definition gauge_inc {K} `{Countable K} (k : K) (g : gmap K Z) : gmap K Z :=
  <[k := gval g k + 1]> g.

(** [collections.Counter(xs)[k]] *)
Definition counter {K} `{EqDecision K} (xs : list K) (k : K) : Z :=
  Z.of_nat (length (List.filter (fun x => bool_decide (x = k)) xs)).

(** [(t.state, t.name) for t in self._state.tasks.values() if t.name] *)
Definition state_name_pairs (recs : list Task) : list (string * string) :=
  flat_map (fun t => match t_name t with
                     | Some n => if String.eqb n "" then [] else [(t_state t, n)]
                     | None => []
                     end) recs.

(* ------------------------------------------------------------------ *)
(** ** [MonitorThread] *)

Definition evt_uuid {S} (e : Event) : SE S string :=
  match ev_uuid e with Some u => ret u | None => raise KeyError end.

(** [_observe_latency] *)
Definition observe_latency (e : Event) : SE World unit :=
  let* prev := try_except (let* u := evt_uuid e in
                           let* p := on_cache (lru_getitem u) in ret (Some p))
                          is_KeyError (ret None) in
  match prev with
  | None => ret tt
  | Some prev_evt =>
      if String.eqb (t_state prev_evt) RECEIVED then
        match ev_local_received e with
        | None => raise KeyError
        | Some a =>
            match t_local_received prev_evt with
            | None => raise TypeError
            | Some b => modify (upd_LATENCY (fun l => app l [a - b]))
            end
        end
      else ret tt
  end.

(** [_incr_ready_task] *)
Definition incr_ready_task (e : Event) (state : string) : SE World unit :=
  let* _ := modify (upd_TASKS (gauge_inc state)) in
  try_except
    (let* u := evt_uuid e in
     let* event := on_cache (lru_pop u) in
     let* _ := modify (upd_TASKS_NAME (gauge_inc (state, label_of_name (t_name event)))) in
     match ev_runtime e with
     | Some r => modify (upd_TASKS_RUNTIME (fun l => app l [(label_of_name (t_name event), r)]))
     | None => ret tt
     end)
    (fun x => (exn_eqb x KeyError || exn_eqb x AttributeError)%bool)
    (ret tt).

(** [_collect_unready_tasks]: both counters are taken over the same
    snapshot, the known sets grow by the keys seen, and every known key is
    overwritten with its count. *)
Definition collect_unready_world (w : World) : World :=
  let recs := map snd (data (state_tasks w)) in
  let states := map t_state recs in
  let ks := known_states w ∪ list_to_set states in
  let pairs := state_name_pairs recs in
  let kn := known_states_names w ∪ list_to_set pairs in
  mkWorld (state_tasks w) ks kn
    (set_fold (fun s g => <[s := counter states s]> g) (TASKS w) ks)
    (set_fold (fun k g => <[k := counter pairs k]> g) (TASKS_NAME w) kn)
    (TASKS_RUNTIME w) (WORKERS w) (LATENCY w) (QUEUE_SIZE w) (QUEUE_TASKS w).

Definition collect_unready_tasks : SE World unit := modify collect_unready_world.

(** [_collect_tasks] *)
Definition collect_tasks (e : Event) (state : string) : SE World unit :=
  let* _ := (if is_ready state then incr_ready_task e state
             else on_cache (state_event e)) in
  collect_unready_tasks.

(** [_process_event] (Celery 4 branch; the lock only serialises calls). *)
Definition process_event (e : Event) : SE World unit :=
  if String.eqb (group_from (ev_type e)) "task" then
    let evt_state := py_slice_from 5 (ev_type e) in
    match TASK_EVENT_TO_STATE evt_state with
    | None => raise KeyError
    | Some state =>
        let* _ := (if String.eqb state STARTED then observe_latency e else ret tt) in
        collect_tasks e state
    end
  else ret tt.

(** [recv.capture(...)]: handlers run one event at a time; an exception
    raised by a handler ends the capture and propagates. *)
Fixpoint capture (es : list Event) : SE World unit :=
  match es with
  | [] => ret tt
  | e :: rest => let* _ := process_event e in capture rest
  end.

(** [MonitorThread(app, max_tasks_in_memory=n)] on fresh metrics. *)
Definition init_world (max_tasks_in_memory : Z) : World :=
  mkWorld (mkLRU max_tasks_in_memory []) ∅ ∅ ∅ ∅ [] 0 [] ∅ ∅.

(* ------------------------------------------------------------------ *)
(** ** Baseline initialisation and stale-series zeroing *)

(** [_reset_metrics(metrics, known_labels)]: every series of the gauge
    ([metrics.collect()] is a snapshot) whose label tuple is not in
    [known_labels] is set to 0; with [known_labels=None] every series is. *)
Definition reset_metrics {K} `{Countable K} (g : gmap K Z) (known_labels : option (gset K))
    : gmap K Z :=
  fold_left (fun acc (kv : K * Z) =>
               match known_labels with
               | Some kl => if bool_decide (kv.1 ∈ kl) then acc else <[kv.1 := 0]> acc
               | None => <[kv.1 := 0]> acc
               end) (map_to_list g) g.

(** [setup_metrics(app)]. [introspection] is the value of
    [inspect.registered_tasks().values()] when [registered_tasks()],
    [active_queues()] and both [.values()] calls succeed, and [None] when one
    of them raises (an unanswered inspect returns [None], whose [.values()]
    raises too). *)
Definition setup_metrics (introspection : option (list (list string))) : SE World unit :=
  let* _ := modify (upd_WORKERS (fun _ => 0)) in
  match introspection with
  | None =>
      let* _ := modify (upd_TASKS (fun g => reset_metrics g None)) in
      modify (upd_TASKS_NAME (fun g => reset_metrics g None))
  | Some registered_tasks =>
      let task_names : gset string := list_to_set (concat registered_tasks) in
      modify (fun w0 =>
        fold_left (fun w state =>
                     fold_left (fun w' task_name =>
                                  upd_TASKS_NAME (<[(state, task_name) := 0]>) w')
                               (elements task_names)
                               (upd_TASKS (<[state := 0]>) w))
                  ALL_STATES w0)
  end.

(* ------------------------------------------------------------------ *)
(** ** [MonitorThread._monitor]

    One pass of [while True] is an attempt. A failed connection runs the
    [except] branch. A connected attempt runs [setup_metrics] and then
    [recv.capture(limit=None, ...)], which only ends by an exception: a
    handler's, or the transport's after the listed events; the [except]
    branch then runs [setup_metrics] again before the sleep. Each call of
    [setup_metrics] sees its own introspection outcome. *)
Inductive Attempt :=
| ConnectFailed (introspection_after : option (list (list string)))
| Connected (introspection_before : option (list (list string))) (events : list Event)
            (introspection_after : option (list (list string))).

Definition monitor_attempt (a : Attempt) (w : World) : World :=
  match a with
  | ConnectFailed ia => fst (setup_metrics ia w)
  | Connected ib es ia =>
      fst (setup_metrics ia (fst ((let* _ := setup_metrics ib in capture es) w)))
  end.

Definition monitor (attempts : list Attempt) (w : World) : World :=
  fold_left (fun w a => monitor_attempt a w) attempts w.

(* ------------------------------------------------------------------ *)
(** ** [WorkerMonitoringThread.update_workers_count]

    [ping] is the reply list of [app.control.ping(timeout=5)], or [None]
    when the call raises; the [except] branch only logs. *)
Definition update_workers_count (ping : option (list string)) : SE World unit :=
  match ping with
  | Some replies => modify (upd_WORKERS (fun _ => Z.of_nat (length replies)))
  | None => ret tt
  end.

(* ------------------------------------------------------------------ *)
(** ** [QueueMonitoringThread] *)

(** A queue descriptor of [active_queues()]: its ['name'] field. *)
Record QueueDesc := mkQueueDesc { qd_name : string }.

(** A JSON value as [json.loads] returns it: [None], a [bool], an [int], a
    [str], a [list], or a [dict] given by its key-value pairs in document
    order. Numbers with a fraction or an exponent are not modelled. *)
#[warnings="-register-all"]
Inductive JSON :=
| JNull
| JBool (b : bool)
| JInt (z : Z)
| JStr (s : string)
| JArr (l : list JSON)
| JObj (kvs : list (string * JSON)).

(** A queued message as [lrange] returns it (bytes), seen through
    [json.loads]: [NotUtf8] when the bytes do not decode to text (a
    [UnicodeDecodeError], which the [except json.decoder.JSONDecodeError]
    clause does not catch), [NotJson] when the text is not JSON (a
    [JSONDecodeError], caught), and [Json v] when it decodes to [v]. *)
Inductive Payload :=
| NotUtf8
| NotJson
| Json (v : JSON).

(** [get_queue_names]: [active_queues] is
    [self._app.control.inspect().active_queues()] as an ordered dict from
    worker to descriptors, [None] when the call raises or returns [None]. *)
Definition get_queue_names (active_queues : option (list (string * list QueueDesc)))
    : SE World (list string) :=
  match active_queues with
  | None => raise AttributeError
  | Some m =>
      ret (fold_left (fun names (node : list QueueDesc) =>
                        fold_left (fun names queue => app names [qd_name queue]) node names)
                     (map snd m) [])
  end.

(** One pipelined reply: [llen] gives an integer, [lrange] a list. *)
Inductive PipeRes := RInt (n : Z) | RList (l : list Payload).

(** The Redis lists at the time the pipeline ([MULTI]/[EXEC]) runs; a
    missing key reads as an empty list. *)
Definition lrange_all (redis : gmap string (list Payload)) (name : string) : list Payload :=
  match redis !! name with Some l => l | None => [] end.

Definition llen (redis : gmap string (list Payload)) (name : string) : Z :=
  Z.of_nat (length (lrange_all redis name)).

(** [get_queues(names)]: [pipe.llen(name); pipe.lrange(name, 0, -1)] for
    every name, then [pipe.execute()]. *)
Definition get_queues (redis : gmap string (list Payload)) (names : list string) : list PipeRes :=
  flat_map (fun name => [RInt (llen redis name); RList (lrange_all redis name)]) names.

(** Python's [x in s] for two [str]. *)
Fixpoint str_contains (x s : string) : bool :=
  String.prefix x s ||
  match s with EmptyString => false | String _ s' => str_contains x s' end.

(** [key in v] for a [str] key: key membership for a [dict], membership
    for a [list] (an element equals the key only if it is that [str]), a
    substring test for a [str]; [None], a [bool] or an [int] raises
    [TypeError]. *)
Definition py_contains (key : string) (v : JSON) : exn + bool :=
  match v with
  | JObj kvs => inr (existsb (fun kv => String.eqb kv.1 key) kvs)
  | JArr l => inr (existsb (fun j => match j with JStr s => String.eqb s key | _ => false end) l)
  | JStr s => inr (str_contains key s)
  | _ => inl TypeError
  end.

(** [v[key]] for a [str] key: the [dict] that [json.loads] builds keeps the
    last value of a repeated key; indexing any other value by a [str]
    raises [TypeError]. *)
Definition py_getitem (v : JSON) (key : string) : exn + JSON :=
  match v with
  | JObj kvs =>
      match fold_left (fun acc kv => if String.eqb kv.1 key then Some kv.2 else acc) kvs None with
      | Some j => inr j
      | None => inl KeyError
      end
  | _ => inl TypeError
  end.

(** [if 'headers' in task_json and 'task' in task_json['headers']]: the
    value of [task_json['headers']['task']] when both tests hold, [None]
    when one of them fails. *)
Definition task_field (v : JSON) : exn + option JSON :=
  match py_contains "headers" v with
  | inl x => inl x
  | inr false => inr None
  | inr true =>
      match py_getitem v "headers" with
      | inl x => inl x
      | inr hd =>
          match py_contains "task" hd with
          | inl x => inl x
          | inr false => inr None
          | inr true =>
              match py_getitem hd "task" with
              | inl x => inl x
              | inr t => inr (Some t)
              end
          end
      end
  end.

(** A dict key must be hashable: a [list] or a [dict] raises [TypeError]. *)
Definition hashable (v : JSON) : bool :=
  match v with JArr _ | JObj _ => false | _ => true end.

(** [==] between hashable keys: [True == 1] and [False == 0], and a [str]
    equals no number and not [None]. *)
Definition py_key_eq (a b : JSON) : bool :=
  match a, b with
  | JNull, JNull => true
  | JBool x, JBool y => Bool.eqb x y
  | JInt x, JInt y => Z.eqb x y
  | JBool x, JInt y => Z.eqb (Z.b2z x) y
  | JInt x, JBool y => Z.eqb x (Z.b2z y)
  | JStr x, JStr y => String.eqb x y
  | _, _ => false
  end.

(** [name2count[t] += 1] on the [defaultdict(int)], kept as its items in
    insertion order: a key equal to one already present updates that entry,
    which keeps its first key. *)
Fixpoint count_incr (t : JSON) (name2count : list (JSON * Z)) : list (JSON * Z) :=
  match name2count with
  | [] => [(t, 1)]
  | (k, n) :: rest => if py_key_eq k t then (k, n + 1) :: rest else (k, n) :: count_incr t rest
  end.

(** One iteration of the loop of [get_tasks_stat]. *)
Definition tasks_stat_step (name2count : list (JSON * Z)) (task : Payload)
    : exn + list (JSON * Z) :=
  match task with
  | NotUtf8 => inl UnicodeDecodeError
  | NotJson => inr name2count
  | Json v =>
      match task_field v with
      | inl x => inl x
      | inr None => inr name2count
      | inr (Some t) => if hashable t then inr (count_incr t name2count) else inl TypeError
      end
  end.

Fixpoint tasks_stat_loop (name2count : list (JSON * Z)) (tasks : list Payload)
    : exn + list (JSON * Z) :=
  match tasks with
  | [] => inr name2count
  | task :: rest =>
      match tasks_stat_step name2count task with
      | inl x => inl x
      | inr n2c => tasks_stat_loop n2c rest
      end
  end.

(** [get_tasks_stat(tasks)]: the items of [name2count], in insertion order,
    or the exception raised on the way. *)
Definition get_tasks_stat (tasks : list Payload) : exn + list (JSON * Z) :=
  tasks_stat_loop [] tasks.

(** [str(task_name)]: [prometheus_client]'s [labels] stores the [str] of
    each label value. A [list] or a [dict] is never a key. *)
Definition py_str (v : JSON) : string :=
  match v with
  | JNull => "None"
  | JBool true => "True"
  | JBool false => "False"
  | JInt z => pretty z
  | JStr s => s
  | JArr _ | JObj _ => ""
  end.

(** [chunks(l, 2)] *)
Fixpoint chunks2 (l : list PipeRes) : list (list PipeRes) :=
  match l with
  | a :: b :: r => [a; b] :: chunks2 r
  | [] => []
  | [a] => [[a]]
  end.

(** The inner loop over [self.get_tasks_stat(tasks).items()]. The set
    [known_tasks] holds the pairs [(queue_name, task_name)] with the raw
    task value; only its membership test is used, so it is kept as the
    list of the pairs added. *)
Fixpoint task_loop (queue_name : string) (items : list (JSON * Z))
    (known_tasks : list (string * JSON)) : SE World (list (string * JSON)) :=
  match items with
  | [] => ret known_tasks
  | (task_name, count) :: rest =>
      let* _ := modify (upd_QUEUES id (<[(queue_name, py_str task_name) := count]>)) in
      task_loop queue_name rest (known_tasks ++ [(queue_name, task_name)])
  end.

(** The outer loop over [zip(queue_names, chunks(queues, 2))]. *)
Fixpoint queue_loop (pairs : list (string * list PipeRes)) (known_queues : gset string)
    (known_tasks : list (string * JSON))
    : SE World (gset string * list (string * JSON)) :=
  match pairs with
  | [] => ret (known_queues, known_tasks)
  | (queue_name, chunk) :: rest =>
      match chunk with
      | [RInt size; RList tasks] =>
          let* _ := modify (upd_QUEUES (<[queue_name := size]>) id) in
          match get_tasks_stat tasks with
          | inl x => raise x
          | inr items =>
              let* kt := task_loop queue_name items known_tasks in
              queue_loop rest (known_queues ∪ {[queue_name]}) kt
          end
      | _ => raise TypeError
      end
  end.

(** [labels not in known_tasks] compares the sample's labels, two [str],
    with the pairs the loop added, which hold the raw task values: only a
    pair whose task value is a [str] can be equal. *)
Definition str_labels (known_tasks : list (string * JSON)) : gset (string * string) :=
  list_to_set (omap (fun qt : string * JSON =>
                       match qt.2 with JStr s => Some (qt.1, s) | _ => None end) known_tasks).

(** [update_queues_metrics] *)
Definition update_queues_metrics (active_queues : option (list (string * list QueueDesc)))
    (redis : gmap string (list Payload)) : SE World unit :=
  let* queue_names := get_queue_names active_queues in
  let queues := get_queues redis queue_names in
  let* known := queue_loop (zip queue_names (chunks2 queues)) ∅ [] in
  modify (upd_QUEUES (fun g => reset_metrics g (Some known.1))
                     (fun g => reset_metrics g (Some (str_labels known.2)))).



(** [items[k]] for a dict given by its items. *)
Fixpoint py_lookup (k : JSON) (items : list (JSON * Z)) : option Z :=
  match items with
  | [] => None
  | (k', n) :: rest => if py_key_eq k' k then Some n else py_lookup k rest
  end.

(** A payload whose [headers.task] is the [str] [t]. *)
Definition carries_task (t : string) (p : Payload) : bool :=
  match p with
  | Json v => match task_field v with inr (Some (JStr s)) => String.eqb s t | _ => false end
  | _ => false
  end.

(** Sample events. *)
Definition ev (ty u : string) (t : Z) (name : option string) (rt : option Z) : Event :=
  mkEvent ty (Some u) (Some "w1") (Some t) (Some t) (Some 0) name rt.

Definition run_events (w : World) (es : list Event) : World := fst (capture es w).

Definition keys (w : World) : list string := map fst (data (state_tasks w)).

(* ================================================================== *)
(** * Invariants and reachable states *)

(** The LRU cache is well formed: keys are distinct, a positive limit
    bounds the size, and a negative limit leaves the cache empty (its first
    insertion raises [StopIteration]). *)
Definition cache_ok (c : LRUCache) : Prop :=
  NoDup (map fst (data c)) /\
  (0 < limit c -> Z.of_nat (length (data c)) <= limit c) /\
  (limit c < 0 -> data c = []).

(** A tracked record is in an unready state, and carries [local_received]
    unless it is still [PENDING] (a bare [Task(uuid)], kept when the heap
    step of [_event] raises after its insertion). *)
Definition rec_ok (t : Task) : Prop :=
  is_ready (t_state t) = false /\ (t_local_received t <> None \/ t_state t = PENDING).

Definition inv (w : World) : Prop :=
  cache_ok (state_tasks w) /\
  (forall k t, od_lookup k (data (state_tasks w)) = Some t -> rec_ok t) /\
  (forall s, s ∈ known_states w -> is_ready s = false) /\
  (forall s n, (s, n) ∈ known_states_names w -> is_ready s = false).

(** The states the process can reach: the thread starts on an empty cache,
    and the event handler, the baseline reset and the two samplers run in
    any interleaving (each call is atomic). *)
Inductive reachable : World -> Prop :=
| reach_init n : reachable (init_world n)
| reach_event w e : reachable w -> reachable (fst (process_event e w))
| reach_setup w i : reachable w -> reachable (fst (setup_metrics i w))
| reach_workers w p : reachable w -> reachable (fst (update_workers_count p w))
| reach_queues w a r : reachable w -> reachable (fst (update_queues_metrics a r w)).

(** The entries left after [__setitem__] of a new key made room. *)
Definition evicted (lim : Z) (d : list (string * Task)) : list (string * Task) :=
  if ((0 <? lim) && (lim =? Z.of_nat (length d)))%bool then tail d else d.

(** The [MonitorThread] part of the state: what only the event handler
    changes. *)
Definition mon (w : World) : LRUCache * gset string * gset (string * string) :=
  (state_tasks w, known_states w, known_states_names w).

(** The records of the cache, as [self._state.tasks.values()] lists them. *)
Definition records (w : World) : list Task := map snd (data (state_tasks w)).

(* ------------------------------------------------------------------ *)
(** ** The remaining helpers of the module *)

(** [chunks(l, n)]: [for i in range(0, len(l), n): yield l[i:i + n]].
    [range] raises [ValueError] for a step of 0 (when the generator is
    first advanced) and is empty for a negative step; for a positive step
    it yields [0, n, 2n, ...] below [len(l)], that is [ceil(len(l) / n)]
    values, and [l[i:i + n]] is [firstn n (skipn i l)]. *)
Definition chunks {A} (l : list A) (n : Z) : exn + list (list A) :=
  if n =? 0 then inl ValueError
  else if n <? 0 then inr []
  else
    let k := Z.to_nat n in
    inr (map (fun i => firstn k (skipn (i * k) l)) (seq 0 ((length l + k - 1) / k))).

(** [s.split(':')]: the pieces between the colons, empty ones included. *)
Fixpoint split_colon (s : string) : list string :=
  match s with
  | EmptyString => [EmptyString]
  | String c r =>
      let pieces := split_colon r in
      if Ascii.eqb c ":"%char then EmptyString :: pieces
      else match pieces with
           | p :: ps => String c p :: ps
           | [] => [String c EmptyString]
           end
  end.

(** [host, port = addr.split(':')], the first line of [start_httpd]: the
    unpacking raises [ValueError] unless there are exactly two pieces. (The
    [int(port)] conversion and the server start that follow are not
    modelled.) *)
Definition start_httpd_addr (addr : string) : exn + (string * string) :=
  match split_colon addr with
  | [host; port] => inr (host, port)
  | _ => inl ValueError
  end.

(** A piece of the split address holds no colon. *)
Definition no_colon (s : string) : Prop := ~ (":"%char ∈ list_ascii_of_string s).

(** [WorkerMonitoringThread.run]: [update_workers_count] once per period;
    [pings] lists the outcomes of the successive pings. *)
Definition workers_run (pings : list (option (list string))) (w : World) : World :=
  fold_left (fun w p => fst (update_workers_count p w)) pings w.

(** [w'] keeps every series of the four gauges of [w] and every
    observation of the two histograms of [w]. *)
Definition kept (w w' : World) : Prop :=
  (dom (TASKS w) ⊆ dom (TASKS w')) /\ (dom (TASKS_NAME w) ⊆ dom (TASKS_NAME w')) /\
  (dom (QUEUE_SIZE w) ⊆ dom (QUEUE_SIZE w')) /\ (dom (QUEUE_TASKS w) ⊆ dom (QUEUE_TASKS w')) /\
  prefix (TASKS_RUNTIME w) (TASKS_RUNTIME w') /\ prefix (LATENCY w) (LATENCY w').

(** A computation whose effect on the [MonitorThread] state, and whose
    outcome, depend on that state only (not on the metric values). *)
Definition mon_sim {A} (m : SE World A) : Prop :=
  forall w1 w2, mon w1 = mon w2 ->
  mon (fst (m w1)) = mon (fst (m w2)) /\ snd (m w1) = snd (m w2).

(* ================================================================== *)
(** * Lemmas *)

(** ** Ordered-dict lemmas *)

Lemma od_lookup_set k v j d :
  od_lookup j (od_set k v d) = if String.eqb k j then Some v else od_lookup j d.
Proof.
  induction d as [|[k' v'] r IH]; simpl.
  - by destruct (String.eqb k j).
  - destruct (String.eqb_spec k' k) as [->|Hne]; simpl.
    + by destruct (String.eqb k j).
    + destruct (String.eqb_spec k' j) as [->|Hne']; rewrite ?IH.
      * destruct (String.eqb_spec k j); congruence.
      * done.
Qed.

Lemma od_lookup_delete k j d :
  od_lookup j (od_delete k d) = if String.eqb k j then None else od_lookup j d.
Proof.
  unfold od_delete. induction d as [|[k' v'] r IH]; simpl.
  - by destruct (String.eqb k j).
  - destruct (String.eqb_spec k' k) as [->|Hne]; simpl.
    + rewrite IH. destruct (String.eqb_spec k j); done.
    + rewrite IH. destruct (String.eqb_spec k' j) as [->|Hne'];
        destruct (String.eqb_spec k j); congruence.
Qed.

Lemma od_lookup_app_last k v j d :
  od_lookup j (d ++ [(k, v)]) =
  match od_lookup j d with Some x => Some x | None => if String.eqb k j then Some v else None end.
Proof.
  induction d as [|[k' v'] r IH]; simpl; [done|].
  destruct (String.eqb k' j); done.
Qed.

Lemma od_lookup_None_iff k d : od_lookup k d = None <-> k ∉ map fst d.
Proof.
  induction d as [|[k' v'] r IH]; simpl.
  - split; [intros _; apply not_elem_of_nil|done].
  - rewrite not_elem_of_cons. destruct (String.eqb_spec k' k) as [->|Hne].
    + split; [done|]. intros [? _]. done.
    + rewrite IH. split; [intros ?; split; [congruence|done]|intros [_ ?]; done].
Qed.

Lemma od_lookup_Some_in k d v : od_lookup k d = Some v -> k ∈ map fst d.
Proof.
  intros H. destruct (decide (k ∈ map fst d)) as [|Hn]; [done|].
  apply od_lookup_None_iff in Hn. congruence.
Qed.

Lemma od_set_new k v d : od_lookup k d = None -> od_set k v d = d ++ [(k, v)].
Proof.
  induction d as [|[k' v'] r IH]; simpl; [done|].
  destruct (String.eqb_spec k' k) as [->|Hne]; [done|].
  intros H. by rewrite IH.
Qed.

Lemma od_set_keys k v d : od_lookup k d <> None -> map fst (od_set k v d) = map fst d.
Proof.
  induction d as [|[k' v'] r IH]; simpl; [done|].
  destruct (String.eqb_spec k' k) as [->|Hne]; simpl; [done|].
  intros H. by rewrite IH.
Qed.

Lemma od_delete_absent k d : od_lookup k d = None -> od_delete k d = d.
Proof.
  unfold od_delete. induction d as [|[k' v'] r IH]; simpl; [done|].
  destruct (String.eqb_spec k' k) as [->|Hne]; [done|].
  intros H. simpl. by rewrite IH.
Qed.

Lemma od_delete_keys k d : map fst (od_delete k d) = List.filter (fun x => negb (String.eqb x k)) (map fst d).
Proof.
  unfold od_delete. induction d as [|[k' v'] r IH]; simpl; [done|].
  destruct (String.eqb k' k); simpl; by rewrite IH.
Qed.

Lemma NoDup_filter_keys (P : string -> bool) (l : list string) :
  NoDup l -> NoDup (List.filter P l).
Proof.
  induction 1 as [|x l Hx Hnd IH]; simpl; [constructor|].
  destruct (P x); [|done]. constructor; [|done].
  rewrite list_elem_of_In, filter_In. intros [Hin _]. apply Hx. by apply list_elem_of_In.
Qed.

Lemma length_delete_present k d v :
  NoDup (map fst d) -> od_lookup k d = Some v -> S (length (od_delete k d)) = length d.
Proof.
  induction d as [|[k' v'] r IH]; simpl; [done|].
  intros Hnd. inversion Hnd as [|? ? Hnin Hnd']; subst.
  unfold od_delete; simpl. destruct (String.eqb_spec k' k) as [->|Hne].
  - intros _. fold (od_delete k r).
    rewrite od_delete_absent; [done|]. by apply od_lookup_None_iff.
  - intros H. simpl. f_equal. by apply IH.
Qed.

Lemma od_delete_head k v r :
  k ∉ map fst r -> od_delete k ((k, v) :: r) = r.
Proof.
  intros H. unfold od_delete; simpl. rewrite String.eqb_refl. simpl.
  fold (od_delete k r). apply od_delete_absent. by apply od_lookup_None_iff.
Qed.

Lemma od_delete_app k a b : od_delete k (a ++ b) = od_delete k a ++ od_delete k b.
Proof.
  unfold od_delete. induction a as [|[k' v'] r IH]; simpl; [done|].
  destruct (String.eqb k' k); simpl; by rewrite IH.
Qed.

Lemma od_delete_idem k d : od_delete k (od_delete k d) = od_delete k d.
Proof. apply od_delete_absent. rewrite od_lookup_delete, String.eqb_refl. done. Qed.

Lemma od_set_last k v v' a :
  od_lookup k a = None -> od_set k v' (a ++ [(k, v)]) = a ++ [(k, v')].
Proof.
  induction a as [|[k' w'] r IH]; simpl.
  - by rewrite String.eqb_refl.
  - destruct (String.eqb_spec k' k) as [->|Hne]; [done|].
    intros H. by rewrite IH.
Qed.

(** ** Cache operations *)

(** Case on every [Z] boolean comparison in the goal, closing the
    arithmetically impossible branches. *)
Ltac zbool :=
  repeat match goal with
         | |- context [Z.eqb ?a ?b] => destruct (Z.eqb_spec a b); try lia
         | |- context [Z.ltb ?a ?b] => destruct (Z.ltb_spec a b); try lia
         | |- context [Z.leb ?a ?b] => destruct (Z.leb_spec a b); try lia
         end.

Lemma lru_getitem_miss k c :
  od_lookup k (data c) = None -> lru_getitem k c = (c, inl KeyError).
Proof. intros H. unfold lru_getitem. by rewrite H. Qed.

Lemma lru_getitem_hit k c v :
  cache_ok c -> od_lookup k (data c) = Some v ->
  lru_getitem k c = (mkLRU (limit c) (od_delete k (data c) ++ [(k, v)]), inr v).
Proof.
  intros (Hnd & Hpos & Hneg) H. unfold lru_getitem. rewrite H.
  unfold bind, lru_setitem; simpl.
  pose proof (length_delete_present k (data c) v Hnd H) as Hlen.
  assert (Hc : (negb (limit c =? 0) && (limit c <=? Z.of_nat (length (od_delete k (data c)))))%bool
               = false).
  { destruct (Z.lt_trichotomy (limit c) 0) as [Hl|[Hl|Hl]].
    - rewrite (Hneg Hl) in H. discriminate.
    - rewrite Hl. done.
    - specialize (Hpos Hl). apply andb_false_intro2. apply Z.leb_gt. lia. }
  rewrite Hc. unfold ret. rewrite od_set_new; [done|].
  rewrite od_lookup_delete, String.eqb_refl. done.
Qed.

Lemma lru_pop_miss k c :
  od_lookup k (data c) = None -> lru_pop k c = (c, inl KeyError).
Proof. intros H. unfold lru_pop, bind. by rewrite lru_getitem_miss. Qed.

Lemma lru_pop_hit k c v :
  cache_ok c -> od_lookup k (data c) = Some v ->
  lru_pop k c = (mkLRU (limit c) (od_delete k (data c)), inr v).
Proof.
  intros Hok H. unfold lru_pop, bind. rewrite (lru_getitem_hit k c v Hok H).
  unfold lru_delitem; simpl. rewrite od_lookup_app_last, od_lookup_delete, String.eqb_refl.
  unfold ret. rewrite od_delete_app, od_delete_idem. unfold od_delete at 2; simpl.
  rewrite String.eqb_refl. simpl. by rewrite app_nil_r.
Qed.

Lemma lru_setitem_new k v c :
  cache_ok c -> od_lookup k (data c) = None ->
  lru_setitem k v c =
  if limit c <? 0 then (c, inl StopIteration)
  else (mkLRU (limit c) (evicted (limit c) (data c) ++ [(k, v)]), inr tt).
Proof.
  intros (Hnd & Hpos & Hneg) H. unfold lru_setitem, evicted.
  destruct (Z.lt_trichotomy (limit c) 0) as [Hl|[Hl|Hl]].
  - rewrite (Hneg Hl). simpl. zbool; reflexivity.
  - rewrite Hl. simpl. by rewrite od_set_new.
  - specialize (Hpos Hl). simpl. zbool; simpl.
    + destruct (data c) as [|[k0 v0] r] eqn:Hd; simpl in *; [lia|].
      inversion Hnd as [|? ? Hn0 Hnd0]; subst. rewrite String.eqb_refl; simpl.
      rewrite od_delete_absent by (by apply od_lookup_None_iff).
      rewrite od_set_new; [done|]. by destruct (String.eqb k0 k).
    + by rewrite od_set_new.
Qed.

Lemma od_lookup_tail j d t :
  NoDup (map fst d) -> od_lookup j (tail d) = Some t -> od_lookup j d = Some t.
Proof.
  destruct d as [|[k0 v0] r]; simpl; [done|]. intros Hnd H.
  inversion Hnd as [|? ? Hn0 _]; subst.
  destruct (String.eqb_spec k0 j) as [->|]; [|done].
  exfalso. apply Hn0. by eapply od_lookup_Some_in.
Qed.

Lemma od_lookup_evicted j lim d t :
  NoDup (map fst d) -> od_lookup j (evicted lim d) = Some t -> od_lookup j d = Some t.
Proof.
  unfold evicted. destruct ((0 <? lim) && (lim =? Z.of_nat (length d)))%bool; [|done].
  apply od_lookup_tail.
Qed.

Lemma od_lookup_delete_Some k j d t :
  od_lookup j (od_delete k d) = Some t -> od_lookup j d = Some t.
Proof. rewrite od_lookup_delete. by destruct (String.eqb k j). Qed.

Lemma NoDup_keys_delete k (d : list (string * Task)) : NoDup (map fst d) -> NoDup (map fst (od_delete k d)).
Proof. intros H. rewrite od_delete_keys. by apply NoDup_filter_keys. Qed.

Lemma NoDup_keys_tail (d : list (string * Task)) : NoDup (map fst d) -> NoDup (map fst (tail d)).
Proof. destruct d; simpl; [done|]. by inversion 1. Qed.

Lemma NoDup_keys_evicted lim (d : list (string * Task)) : NoDup (map fst d) -> NoDup (map fst (evicted lim d)).
Proof.
  unfold evicted. destruct ((0 <? lim) && (lim =? Z.of_nat (length d)))%bool; [|done].
  apply NoDup_keys_tail.
Qed.

Lemma NoDup_keys_snoc u (v : Task) (D : list (string * Task)) :
  NoDup (map fst D) -> od_lookup u D = None -> NoDup (map fst (D ++ [(u, v)])).
Proof.
  intros Hnd Hu. rewrite map_app. simpl. apply NoDup_app. split; [done|split].
  - intros x Hx. rewrite list_elem_of_singleton. intros ->.
    by apply od_lookup_None_iff in Hu.
  - apply NoDup_singleton.
Qed.

Lemma od_lookup_delete_self k d : od_lookup k (od_delete k d) = None.
Proof. by rewrite od_lookup_delete, String.eqb_refl. Qed.

Lemma od_lookup_evicted_None u lim d :
  NoDup (map fst d) -> od_lookup u d = None -> od_lookup u (evicted lim d) = None.
Proof.
  intros Hnd H. destruct (od_lookup u (evicted lim d)) eqn:E; [|done].
  apply od_lookup_evicted in E; [congruence|done].
Qed.

Lemma length_od_delete_le k d : (length (od_delete k d) <= length d)%nat.
Proof.
  unfold od_delete. induction d as [|[k' v'] r IH]; simpl; [lia|].
  destruct (negb (String.eqb k' k)); simpl; lia.
Qed.

(** ** Event classification *)

(** For a task event the exporter's [evt['type'][5:]] and celery's
    [type_.partition('-')[2]] name the same subject. *)
Lemma task_subject s st :
  group_from s = "task" -> TASK_EVENT_TO_STATE (py_slice_from 5 s) = Some st ->
  partition_subject s = py_slice_from 5 s.
Proof.
  intros Hg Hm.
  destruct s as [|c1 s]; simpl in Hg; [discriminate|].
  destruct (Ascii.eqb c1 "-") eqn:E1; [discriminate|]. injection Hg as -> Hg.
  destruct s as [|c2 s]; simpl in Hg; [discriminate|].
  destruct (Ascii.eqb c2 "-") eqn:E2; [discriminate|]. injection Hg as -> Hg.
  destruct s as [|c3 s]; simpl in Hg; [discriminate|].
  destruct (Ascii.eqb c3 "-") eqn:E3; [discriminate|]. injection Hg as -> Hg.
  destruct s as [|c4 s]; simpl in Hg; [discriminate|].
  destruct (Ascii.eqb c4 "-") eqn:E4; [discriminate|]. injection Hg as -> Hg.
  destruct s as [|c5 s]; [discriminate|]. simpl in Hg.
  destruct (Ascii.eqb c5 "-") eqn:E5; [|discriminate].
  simpl. by rewrite E5.
Qed.

Lemma precedence_le_8 s : precedence s <= 8.
Proof.
  unfold precedence.
  repeat match goal with |- context [if ?b then _ else _] => destruct b end; lia.
Qed.

Lemma TASK_EVENT_TO_STATE_cases subj st :
  TASK_EVENT_TO_STATE subj = Some st ->
  st = PENDING \/ st = RECEIVED \/ st = STARTED \/ st = FAILURE \/ st = RETRY \/
  st = SUCCESS \/ st = REVOKED \/ st = REJECTED.
Proof.
  unfold TASK_EVENT_TO_STATE.
  repeat match goal with |- context [if ?b then _ else _] => destruct b end;
    intros H; inversion H; subst; tauto.
Qed.

(** [Task.event] leaves the record in the event's state or in its own. *)
Lemma task_event_state subj e t st :
  TASK_EVENT_TO_STATE subj = Some st ->
  t_state (task_event subj e t) = st \/ t_state (task_event subj e t) = t_state t.
Proof.
  intros H. unfold task_event. rewrite H.
  destruct (_ && _)%bool; [|by left].
  right. destruct (merge_rules st); reflexivity.
Qed.

(** A record created by [State._event] (state [PENDING]) always takes the
    event's state. *)
Lemma task_event_new subj e st :
  TASK_EVENT_TO_STATE subj = Some st -> t_state (task_event subj e new_Task) = st.
Proof.
  intros H. unfold task_event. rewrite H. simpl.
  pose proof (precedence_le_8 st).
  replace (precedence PENDING <? precedence st) with false; [by rewrite andb_false_r|].
  unfold precedence at 1. simpl. symmetry. apply Z.ltb_ge. lia.
Qed.

Lemma task_event_local_received subj e t x :
  ev_local_received e = Some x ->
  (t_local_received t <> None \/ t_state t = PENDING) ->
  t_local_received (task_event subj e t) <> None.
Proof.
  intros Hx Ht. unfold task_event.
  destruct (_ && _)%bool eqn:Hc.
  - destruct Ht as [Ht|Ht].
    + destruct (merge_rules _); simpl; rewrite ?Hx; [|done].
      by destruct (existsb _ _).
    + exfalso. rewrite Ht in Hc. unfold precedence at 1 in Hc. simpl in Hc.
      apply andb_prop in Hc as [_ Hc]. apply Z.ltb_lt in Hc.
      pose proof (precedence_le_8 (match TASK_EVENT_TO_STATE subj with
                                   | Some s => s | None => py_upper subj end)). lia.
  - simpl. by rewrite Hx.
Qed.

(** ** [State._event] *)

Lemma state_event_malformed e c :
  (ev_uuid e = None \/ ev_hostname e = None \/ ev_timestamp e = None \/
   ev_local_received e = None \/ ev_clock e = None) ->
  state_event e c = (c, inl KeyError).
Proof.
  unfold state_event.
  destruct (ev_uuid e), (ev_hostname e), (ev_timestamp e), (ev_local_received e), (ev_clock e);
    intros H; try reflexivity; naive_solver.
Qed.

Lemma heap_step_run c :
  heap_step c = if limit c <=? 0 then (c, inl IndexError) else (c, inr tt).
Proof.
  unfold heap_step, heap_multiplier.
  destruct (Z.leb_spec (limit c * 4) 0), (Z.leb_spec (limit c) 0); done || lia.
Qed.

Lemma state_event_spec e c u h ts lr cl :
  cache_ok c ->
  ev_uuid e = Some u -> ev_hostname e = Some h -> ev_timestamp e = Some ts ->
  ev_local_received e = Some lr -> ev_clock e = Some cl ->
  state_event e c =
  match od_lookup u (data c) with
  | Some v =>
      if limit c <=? 0 then (c, inl IndexError)
      else (mkLRU (limit c) (od_set u (task_event (partition_subject (ev_type e)) e v) (data c)),
            inr tt)
  | None =>
      if limit c <? 0 then (c, inl StopIteration)
      else if limit c =? 0 then (mkLRU (limit c) (data c ++ [(u, new_Task)]), inl IndexError)
      else (mkLRU (limit c)
              (evicted (limit c) (data c) ++
               [(u, task_event (partition_subject (ev_type e)) e new_Task)]), inr tt)
  end.
Proof.
  intros Hok Hu Hh Hts Hlr Hcl. unfold state_event. rewrite Hu, Hh, Hts, Hlr, Hcl.
  unfold bind at 1, try_except, get_task.
  destruct (od_lookup u (data c)) as [v|] eqn:Hl.
  - unfold bind. rewrite heap_step_run. by destruct (limit c <=? 0).
  - simpl. unfold bind. rewrite (lru_setitem_new u new_Task c Hok Hl).
    destruct (Z.ltb_spec (limit c) 0); [done|]. unfold ret. rewrite heap_step_run. simpl.
    destruct (Z.eqb_spec (limit c) 0) as [H0|H0].
    + rewrite (proj2 (Z.leb_le _ _)) by lia. unfold evicted. rewrite H0. done.
    + rewrite (proj2 (Z.leb_gt _ _)) by lia. unfold modify; simpl.
      rewrite od_set_last; [done|]. apply od_lookup_evicted_None; [apply Hok|done].
Qed.

(** ** The exporter's handler pieces *)

Lemma on_cache_run {A} (m : SE LRUCache A) w :
  on_cache m w = (upd_state_tasks (fun _ => fst (m (state_tasks w))) w, snd (m (state_tasks w))).
Proof. unfold on_cache. by destruct (m (state_tasks w)). Qed.

Lemma observe_latency_no_uuid e w :
  ev_uuid e = None -> observe_latency e w = (w, inr tt).
Proof. intros H. unfold observe_latency, evt_uuid. by rewrite H. Qed.

Lemma observe_latency_spec e w u :
  cache_ok (state_tasks w) -> ev_uuid e = Some u ->
  observe_latency e w =
  match od_lookup u (data (state_tasks w)) with
  | None => (w, inr tt)
  | Some v =>
      let w1 := upd_state_tasks
                  (fun c => mkLRU (limit c) (od_delete u (data c) ++ [(u, v)])) w in
      if String.eqb (t_state v) RECEIVED then
        match ev_local_received e with
        | None => (w1, inl KeyError)
        | Some a =>
            match t_local_received v with
            | None => (w1, inl TypeError)
            | Some b => (upd_LATENCY (fun l => app l [a - b]) w1, inr tt)
            end
        end
      else (w1, inr tt)
  end.
Proof.
  intros Hok Hu. unfold observe_latency, evt_uuid. rewrite Hu.
  unfold bind at 1, try_except, bind at 1. simpl. unfold bind at 1.
  rewrite on_cache_run.
  destruct (od_lookup u (data (state_tasks w))) as [v|] eqn:Hl.
  - rewrite (lru_getitem_hit u _ v Hok Hl). simpl.
    destruct (String.eqb (t_state v) RECEIVED), (ev_local_received e), (t_local_received v); reflexivity.
  - rewrite (lru_getitem_miss u _ Hl). simpl.
    by destruct w as [[] ? ? ? ? ? ? ? ? ?].
Qed.

Lemma incr_ready_task_spec e st w :
  cache_ok (state_tasks w) ->
  incr_ready_task e st w =
  let w1 := upd_TASKS (gauge_inc st) w in
  match ev_uuid e with
  | None => (w1, inr tt)
  | Some u =>
      match od_lookup u (data (state_tasks w)) with
      | None => (w1, inr tt)
      | Some v =>
          let w2 := upd_TASKS_NAME (gauge_inc (st, label_of_name (t_name v)))
                      (upd_state_tasks (fun c => mkLRU (limit c) (od_delete u (data c))) w1) in
          (match ev_runtime e with
           | Some r => upd_TASKS_RUNTIME (fun l => app l [(label_of_name (t_name v), r)]) w2
           | None => w2
           end, inr tt)
      end
  end.
Proof.
  intros Hok. unfold incr_ready_task, bind at 1, modify at 1, try_except, evt_uuid.
  destruct (ev_uuid e) as [u|]; [|done].
  unfold bind at 1, ret at 1, bind at 1. rewrite on_cache_run. simpl.
  destruct (od_lookup u (data (state_tasks w))) as [v|] eqn:Hl.
  - rewrite (lru_pop_hit u _ v Hok Hl). simpl. unfold bind, modify.
    by destruct (ev_runtime e).
  - rewrite (lru_pop_miss u _ Hl). simpl.
    by destruct w as [[] ? ? ? ? ? ? ? ? ?].
Qed.

(** ** The unready-aggregation pass *)

Lemma foldr_insert_lookup {K} `{Countable K} (f : K -> Z) (l : list K) (g : gmap K Z) k :
  foldr (fun s g => <[s := f s]> g) g l !! k =
  if bool_decide (k ∈ l) then Some (f k) else g !! k.
Proof.
  induction l as [|x l IH]; cbn [foldr].
  - rewrite bool_decide_false; [done|]. apply not_elem_of_nil.
  - rewrite lookup_insert. destruct (decide (x = k)) as [->|Hne].
    + rewrite bool_decide_true; [done|]. apply list_elem_of_here.
    + rewrite IH. do 2 case_bool_decide; rewrite ?elem_of_cons in *; naive_solver.
Qed.

Lemma set_fold_insert_lookup {K} `{Countable K} (f : K -> Z) (X : gset K) (g : gmap K Z) k :
  set_fold (fun s g => <[s := f s]> g) g X !! k =
  if bool_decide (k ∈ X) then Some (f k) else g !! k.
Proof.
  unfold set_fold; simpl. rewrite foldr_insert_lookup.
  do 2 case_bool_decide; rewrite ?elem_of_elements in *; naive_solver.
Qed.

Lemma collect_unready_TASKS w s :
  TASKS (collect_unready_world w) !! s =
  if bool_decide (s ∈ known_states (collect_unready_world w))
  then Some (counter (map t_state (records w)) s) else TASKS w !! s.
Proof. unfold collect_unready_world. simpl. apply set_fold_insert_lookup. Qed.

Lemma collect_unready_TASKS_NAME w k :
  TASKS_NAME (collect_unready_world w) !! k =
  if bool_decide (k ∈ known_states_names (collect_unready_world w))
  then Some (counter (state_name_pairs (records w)) k) else TASKS_NAME w !! k.
Proof. unfold collect_unready_world. simpl. apply set_fold_insert_lookup. Qed.

Lemma collect_unready_known_states w :
  known_states (collect_unready_world w) =
  known_states w ∪ list_to_set (map t_state (records w)).
Proof. reflexivity. Qed.

Lemma collect_unready_known_states_names w :
  known_states_names (collect_unready_world w) =
  known_states_names w ∪ list_to_set (state_name_pairs (records w)).
Proof. reflexivity. Qed.

(** ** Preservation of [inv] *)

Lemma od_lookup_in_NoDup k t d :
  NoDup (map fst d) -> (k, t) ∈ d -> od_lookup k d = Some t.
Proof.
  induction d as [|[k' v'] r IH]; simpl; intros Hnd Hin.
  - by apply not_elem_of_nil in Hin.
  - inversion Hnd as [|? ? Hn0 Hnd0]; subst.
    apply elem_of_cons in Hin as [Heq|Hin].
    + injection Heq as -> ->. by rewrite String.eqb_refl.
    + destruct (String.eqb_spec k' k) as [->|]; [|by apply IH].
      exfalso. apply Hn0. apply (list_elem_of_fmap_2 fst _ (k, t)) in Hin. done.
Qed.

Lemma records_ok w t :
  inv w -> t ∈ records w -> rec_ok t.
Proof.
  intros (Hok & Hrec & _) Hin. unfold records in Hin.
  apply list_elem_of_fmap in Hin as [[k t'] [-> Hin]]. simpl.
  apply (Hrec k). apply od_lookup_in_NoDup; [apply Hok|done].
Qed.

Lemma state_name_pairs_in s n recs :
  (s, n) ∈ state_name_pairs recs -> exists t, t ∈ recs /\ t_state t = s.
Proof.
  unfold state_name_pairs. rewrite list_elem_of_In, in_flat_map.
  intros [t [Hin Hp]]. exists t. split; [by apply list_elem_of_In|].
  destruct (t_name t) as [m|]; [|done].
  destruct (String.eqb m ""); [done|]. simpl in Hp. destruct Hp as [Hp|[]]. congruence.
Qed.

Lemma inv_frame w w' :
  state_tasks w' = state_tasks w -> known_states w' = known_states w ->
  known_states_names w' = known_states_names w -> inv w -> inv w'.
Proof. intros H1 H2 H3. unfold inv. by rewrite H1, H2, H3. Qed.

Lemma inv_collect w : inv w -> inv (collect_unready_world w).
Proof.
  intros Hi. pose proof Hi as (Hok & Hrec & Hks & Hkn).
  split; [done|]. split; [done|]. split.
  - intros s. rewrite collect_unready_known_states, elem_of_union, elem_of_list_to_set.
    intros [Hs|Hs]; [by apply Hks|].
    apply list_elem_of_fmap in Hs as [t [-> Ht]]. by apply (records_ok w t).
  - intros s n. rewrite collect_unready_known_states_names, elem_of_union, elem_of_list_to_set.
    intros [Hs|Hs]; [by apply (Hkn s n)|].
    apply state_name_pairs_in in Hs as [t [Ht <-]]. by apply (records_ok w t).
Qed.

Lemma bind_pres {S A B} (P : S -> Prop) (m : SE S A) (k : A -> SE S B) s :
  P s -> (forall s, P s -> P (fst (m s))) -> (forall a s, P s -> P (fst (k a s))) ->
  P (fst (bind m k s)).
Proof.
  intros Hs Hm Hk. unfold bind. specialize (Hm s Hs).
  destruct (m s) as [s' [x|a]]; simpl in *; [done|]. by apply Hk.
Qed.

Lemma inv_set_cache w f :
  cache_ok (f (state_tasks w)) ->
  (forall k t, od_lookup k (data (f (state_tasks w))) = Some t -> rec_ok t) ->
  inv w -> inv (upd_state_tasks f w).
Proof. intros Hc Hr (_ & _ & Hks & Hkn). done. Qed.

Lemma cache_ok_refresh c u v v' :
  cache_ok c -> od_lookup u (data c) = Some v ->
  cache_ok (mkLRU (limit c) (od_delete u (data c) ++ [(u, v')])).
Proof.
  intros (Hnd & Hpos & Hneg) Hl. pose proof (length_delete_present u _ v Hnd Hl) as Hlen.
  split; [|split]; simpl.
  - apply NoDup_keys_snoc; [by apply NoDup_keys_delete|apply od_lookup_delete_self].
  - intros Hp. specialize (Hpos Hp). rewrite length_app. simpl. lia.
  - intros Hn. rewrite (Hneg Hn) in Hl. discriminate.
Qed.

Lemma cache_ok_delete c u :
  cache_ok c -> cache_ok (mkLRU (limit c) (od_delete u (data c))).
Proof.
  intros (Hnd & Hpos & Hneg). pose proof (length_od_delete_le u (data c)).
  split; [|split]; simpl.
  - by apply NoDup_keys_delete.
  - intros Hp. specialize (Hpos Hp). lia.
  - intros Hn. rewrite (Hneg Hn). done.
Qed.

Lemma cache_ok_insert c u v :
  cache_ok c -> od_lookup u (data c) = None -> 0 <= limit c ->
  cache_ok (mkLRU (limit c) (evicted (limit c) (data c) ++ [(u, v)])).
Proof.
  intros (Hnd & Hpos & Hneg) Hl Hlim.
  split; [|split]; simpl.
  - apply NoDup_keys_snoc; [by apply NoDup_keys_evicted|by apply od_lookup_evicted_None].
  - intros Hp. specialize (Hpos Hp). rewrite length_app. simpl. unfold evicted. zbool; simpl.
    + destruct (data c); simpl in *; lia.
    + lia.
  - lia.
Qed.

Lemma cache_ok_set c u v v' :
  cache_ok c -> od_lookup u (data c) = Some v ->
  cache_ok (mkLRU (limit c) (od_set u v' (data c))).
Proof.
  intros (Hnd & Hpos & Hneg) Hl.
  assert (Hk : map fst (od_set u v' (data c)) = map fst (data c))
    by (apply od_set_keys; by rewrite Hl).
  split; [|split]; simpl.
  - by rewrite Hk.
  - intros Hp. rewrite <- (length_map fst), Hk, length_map. by apply Hpos.
  - intros Hn. rewrite (Hneg Hn) in Hl. discriminate.
Qed.

Lemma cache_ok_append c u v :
  cache_ok c -> od_lookup u (data c) = None -> limit c = 0 ->
  cache_ok (mkLRU (limit c) (data c ++ [(u, v)])).
Proof.
  intros (Hnd & Hpos & Hneg) Hl H0.
  split; [|split]; simpl; [by apply NoDup_keys_snoc|lia|lia].
Qed.

Lemma lookup_set_ok (P : Task -> Prop) d u (v' : Task) :
  (forall k t, od_lookup k d = Some t -> P t) -> P v' ->
  forall k t, od_lookup k (od_set u v' d) = Some t -> P t.
Proof.
  intros Hd Hv k t. rewrite od_lookup_set.
  destruct (String.eqb u k); [by intros [= <-]|apply Hd].
Qed.

Lemma lookup_append_ok (P : Task -> Prop) d u (v' : Task) :
  (forall k t, od_lookup k d = Some t -> P t) -> P v' ->
  forall k t, od_lookup k (d ++ [(u, v')]) = Some t -> P t.
Proof.
  intros Hd Hv k t. rewrite od_lookup_app_last.
  destruct (od_lookup k d) as [t'|] eqn:E; [intros [= <-]; by apply (Hd k)|].
  destruct (String.eqb u k); [by intros [= <-]|done].
Qed.

Lemma lookup_refresh_ok (P : Task -> Prop) d u (v' : Task) :
  (forall k t, od_lookup k d = Some t -> P t) -> P v' ->
  forall k t, od_lookup k (od_delete u d ++ [(u, v')]) = Some t -> P t.
Proof.
  intros Hd Hv k t. rewrite od_lookup_app_last.
  destruct (od_lookup k (od_delete u d)) as [t'|] eqn:E.
  - intros [= <-]. apply od_lookup_delete_Some in E. by apply (Hd k).
  - destruct (String.eqb u k); [|done]. by intros [= <-].
Qed.

Lemma lookup_insert_ok (P : Task -> Prop) lim d u v' :
  NoDup (map fst d) ->
  (forall k t, od_lookup k d = Some t -> P t) -> P v' ->
  forall k t, od_lookup k (evicted lim d ++ [(u, v')]) = Some t -> P t.
Proof.
  intros Hnd Hd Hv k t. rewrite od_lookup_app_last.
  destruct (od_lookup k (evicted lim d)) as [t'|] eqn:E.
  - intros [= <-]. apply od_lookup_evicted in E; [|done]. by apply (Hd k).
  - destruct (String.eqb u k); [|done]. by intros [= <-].
Qed.

Lemma lookup_delete_ok (P : Task -> Prop) d u :
  (forall k t, od_lookup k d = Some t -> P t) ->
  forall k t, od_lookup k (od_delete u d) = Some t -> P t.
Proof. intros Hd k t E. apply od_lookup_delete_Some in E. by apply (Hd k). Qed.

Lemma inv_observe_latency w e : inv w -> inv (fst (observe_latency e w)).
Proof.
  intros Hi. pose proof Hi as (Hok & Hrec & _).
  destruct (ev_uuid e) as [u|] eqn:Hu; [|by rewrite observe_latency_no_uuid].
  rewrite (observe_latency_spec e w u Hok Hu).
  destruct (od_lookup u (data (state_tasks w))) as [v|] eqn:Hl; [|done].
  assert (Hw1 : inv (upd_state_tasks
                       (fun c => mkLRU (limit c) (od_delete u (data c) ++ [(u, v)])) w)).
  { apply inv_set_cache; [by eapply cache_ok_refresh| |done].
    apply lookup_refresh_ok; [done|]. by apply (Hrec u). }
  simpl. destruct (String.eqb (t_state v) RECEIVED), (ev_local_received e), (t_local_received v);
    simpl; done.
Qed.

Lemma inv_incr_ready_task w e st : inv w -> inv (fst (incr_ready_task e st w)).
Proof.
  intros Hi. pose proof Hi as (Hok & Hrec & _).
  rewrite (incr_ready_task_spec e st w Hok). simpl.
  assert (Hw1 : inv (upd_TASKS (gauge_inc st) w))
    by by apply (inv_frame _ _ eq_refl eq_refl eq_refl).
  destruct (ev_uuid e) as [u|]; [|done].
  destruct (od_lookup u (data (state_tasks w))) as [v|] eqn:Hl; [|done].
  assert (Hw2 : inv (upd_state_tasks (fun c => mkLRU (limit c) (od_delete u (data c)))
                       (upd_TASKS (gauge_inc st) w))).
  { apply inv_set_cache; [by apply cache_ok_delete|by apply lookup_delete_ok|done]. }
  destruct (ev_runtime e); simpl;
    apply (inv_frame _ _ eq_refl eq_refl eq_refl); apply (inv_frame _ _ eq_refl eq_refl eq_refl Hw2).
Qed.

Lemma inv_state_event w e st :
  inv w -> is_ready st = false ->
  TASK_EVENT_TO_STATE (partition_subject (ev_type e)) = Some st ->
  inv (fst (on_cache (state_event e) w)).
Proof.
  intros Hi Hst Hm. pose proof Hi as (Hok & Hrec & _).
  rewrite on_cache_run. simpl.
  destruct (ev_uuid e) as [u|] eqn:Hu, (ev_hostname e) as [h|] eqn:Hh,
    (ev_timestamp e) as [ts|] eqn:Hts, (ev_local_received e) as [lr|] eqn:Hlr,
    (ev_clock e) as [cl|] eqn:Hcl;
    try (rewrite state_event_malformed by tauto; simpl;
         by apply (inv_frame _ _ eq_refl eq_refl eq_refl); destruct w).
  rewrite (state_event_spec e _ u h ts lr cl Hok Hu Hh Hts Hlr Hcl).
  destruct (od_lookup u (data (state_tasks w))) as [v|] eqn:Hl.
  - zbool; simpl.
    + by apply (inv_frame _ _ eq_refl eq_refl eq_refl); destruct w as [[] ? ? ? ? ? ? ? ? ?].
    + apply inv_set_cache; [by eapply cache_ok_set| |done]; simpl.
      apply lookup_set_ok; [done|]. destruct (Hrec u v Hl) as [Hv1 Hv2]. split.
      * destruct (task_event_state _ e v st Hm) as [->| ->]; done.
      * left. by apply (task_event_local_received _ e v lr Hlr).
  - zbool; simpl.
    + apply inv_set_cache; [by apply cache_ok_append| |done]; simpl.
      apply lookup_append_ok; [done|]. split; [done|by right].
    + by apply (inv_frame _ _ eq_refl eq_refl eq_refl); destruct w as [[] ? ? ? ? ? ? ? ? ?].
    + apply inv_set_cache; [apply cache_ok_insert; (done || lia)| |done]; simpl.
      apply lookup_insert_ok; [apply Hok|done|]. split.
      * by rewrite (task_event_new _ e st Hm).
      * left. apply (task_event_local_received _ e new_Task lr Hlr). by right.
Qed.

Lemma inv_process_event w e : inv w -> inv (fst (process_event e w)).
Proof.
  intros Hi. unfold process_event.
  destruct (String.eqb_spec (group_from (ev_type e)) "task") as [Hg|]; [|done].
  destruct (TASK_EVENT_TO_STATE (py_slice_from 5 (ev_type e))) as [st|] eqn:Hm; [|done].
  apply bind_pres; [done| |].
  { intros s Hs. destruct (String.eqb st STARTED); [by apply inv_observe_latency|done]. }
  intros _ s Hs. unfold collect_tasks. apply bind_pres; [done| |].
  - intros s' Hs'. destruct (is_ready st) eqn:Hr; [by apply inv_incr_ready_task|].
    apply (inv_state_event s' e st Hs' Hr). by rewrite (task_subject _ st Hg Hm).
  - intros _ s' Hs'. by apply inv_collect.
Qed.

(** ** The samplers and the reset leave the [MonitorThread] state alone *)

Lemma inv_mon w w' : mon w' = mon w -> inv w -> inv w'.
Proof. unfold mon. intros [= H1 H2 H3]. by apply inv_frame. Qed.

Lemma fold_left_mon {A} (g : World -> A -> World) (l : list A) w :
  (forall w x, mon (g w x) = mon w) -> mon (fold_left g l w) = mon w.
Proof.
  intros Hg. revert w. induction l as [|x l IH]; intros w; simpl; [done|].
  by rewrite IH, Hg.
Qed.

Lemma bind_mon {A B} (m : SE World A) (k : A -> SE World B) w :
  (forall w, mon (fst (m w)) = mon w) ->
  (forall a w, mon (fst (k a w)) = mon w) ->
  mon (fst (bind m k w)) = mon w.
Proof.
  intros Hm Hk. unfold bind. specialize (Hm w).
  destruct (m w) as [w1 [x|a]]; simpl in *; [done|]. by rewrite Hk.
Qed.

Lemma setup_metrics_mon i w : mon (fst (setup_metrics i w)) = mon w.
Proof.
  unfold setup_metrics. apply bind_mon; [done|]. intros _ w'.
  destruct i as [reg|]; [|apply bind_mon; done].
  unfold modify. cbn [fst]. apply fold_left_mon. intros w0 st.
  by rewrite fold_left_mon.
Qed.

Lemma update_workers_count_mon p w : mon (fst (update_workers_count p w)) = mon w.
Proof. by destruct p. Qed.

Lemma task_loop_mon q items kt w : mon (fst (task_loop q items kt w)) = mon w.
Proof.
  revert kt w. induction items as [|[t c] items IH]; intros kt w; simpl; [done|].
  apply bind_mon; [done|]. intros _ w'. apply IH.
Qed.

Lemma queue_loop_mon pairs kq kt w : mon (fst (queue_loop pairs kq kt w)) = mon w.
Proof.
  revert kq kt w. induction pairs as [|[q ch] pairs IH]; intros kq kt w; simpl; [done|].
  repeat case_match; try done.
  apply bind_mon; [done|]. intros _ w'. apply bind_mon; [apply task_loop_mon|].
  intros kt' w''. apply IH.
Qed.

Lemma update_queues_metrics_mon a r w : mon (fst (update_queues_metrics a r w)) = mon w.
Proof.
  unfold update_queues_metrics. apply bind_mon; [by intros; destruct a|].
  intros names w'. apply bind_mon; [apply queue_loop_mon|done].
Qed.

Lemma reachable_inv w : reachable w -> inv w.
Proof.
  induction 1 as [n|w e _ IH|w i _ IH|w p _ IH|w a r _ IH].
  - split; [split; [constructor|split; simpl; [lia|done]]|].
    split; [done|]. split; intros *; set_solver.
  - by apply inv_process_event.
  - by apply (inv_mon w); [apply setup_metrics_mon|].
  - by apply (inv_mon w); [apply update_workers_count_mon|].
  - by apply (inv_mon w); [apply update_queues_metrics_mon|].
Qed.

(** ** The ready-event path of [_process_event] *)

Lemma gval_gauge_inc {K} `{Countable K} (k : K) (g : gmap K Z) :
  gval (gauge_inc k g) k = gval g k + 1.
Proof. unfold gval at 1, gauge_inc. rewrite lookup_insert, decide_True; done. Qed.

Lemma gauge_inc_other {K} `{Countable K} (k j : K) (g : gmap K Z) :
  k <> j -> gauge_inc k g !! j = g !! j.
Proof. intros Hne. unfold gauge_inc. rewrite lookup_insert, decide_False; done. Qed.

Lemma incr_ready_task_ok e st w :
  cache_ok (state_tasks w) -> snd (incr_ready_task e st w) = inr tt.
Proof.
  intros Hok. rewrite (incr_ready_task_spec e st w Hok).
  repeat case_match; simpl; done.
Qed.

Lemma ready_not_STARTED st : is_ready st = true -> String.eqb st STARTED = false.
Proof. intros Hr. destruct (String.eqb_spec st STARTED) as [->|]; [done|done]. Qed.

Lemma process_event_ready e w st :
  cache_ok (state_tasks w) ->
  group_from (ev_type e) = "task" ->
  TASK_EVENT_TO_STATE (py_slice_from 5 (ev_type e)) = Some st ->
  is_ready st = true ->
  process_event e w = (collect_unready_world (fst (incr_ready_task e st w)), inr tt).
Proof.
  intros Hok Hg Hm Hr. unfold process_event. rewrite Hg, String.eqb_refl. cbv zeta. rewrite Hm.
  rewrite (ready_not_STARTED st Hr). unfold bind at 1, ret at 1.
  unfold collect_tasks. rewrite Hr. unfold bind.
  pose proof (incr_ready_task_ok e st w Hok) as Hs.
  destruct (incr_ready_task e st w) as [w1 r1]. simpl in Hs. by subst.
Qed.

Lemma ready_not_known w s : inv w -> is_ready s = true -> s ∉ known_states w.
Proof. intros (_ & _ & Hks & _) Hr Hin. rewrite (Hks s Hin) in Hr. done. Qed.

Lemma ready_not_known_names w s n :
  inv w -> is_ready s = true -> (s, n) ∉ known_states_names w.
Proof. intros (_ & _ & _ & Hkn) Hr Hin. rewrite (Hkn s n Hin) in Hr. done. Qed.

Lemma collect_TASKS_ready w s :
  inv w -> is_ready s = true -> TASKS (collect_unready_world w) !! s = TASKS w !! s.
Proof.
  intros Hi Hr. rewrite collect_unready_TASKS.
  rewrite bool_decide_false; [done|]. apply ready_not_known; [by apply inv_collect|done].
Qed.

Lemma collect_TASKS_NAME_ready w s n :
  inv w -> is_ready s = true ->
  TASKS_NAME (collect_unready_world w) !! (s, n) = TASKS_NAME w !! (s, n).
Proof.
  intros Hi Hr. rewrite collect_unready_TASKS_NAME.
  rewrite bool_decide_false; [done|]. apply ready_not_known_names; [by apply inv_collect|done].
Qed.

Lemma collect_TASKS_known w s :
  s ∈ known_states (collect_unready_world w) ->
  TASKS (collect_unready_world w) !! s =
  Some (counter (map t_state (records (collect_unready_world w))) s).
Proof. intros Hin. rewrite collect_unready_TASKS, bool_decide_true; done. Qed.

Lemma gval_eq {K} `{Countable K} (g g' : gmap K Z) k : g' !! k = g !! k -> gval g' k = gval g k.
Proof. unfold gval. by intros ->. Qed.

(** [C1] A terminal event (its state is in [READY_STATES]) for an id
    present in the registry raises nothing, removes the id from the
    registry (the aggregation that follows counts only the remaining
    records), adds exactly 1 to [tasks{state}], adds exactly 1 to
    [tasks_by_name{state,name}] when the stored record has a name, and
    observes the event's runtime, under the stored name, when the event
    has one. *)
Theorem ready_event_present_record w e st u r :
  reachable w ->
  group_from (ev_type e) = "task" ->
  TASK_EVENT_TO_STATE (py_slice_from 5 (ev_type e)) = Some st ->
  is_ready st = true ->
  ev_uuid e = Some u ->
  od_lookup u (data (state_tasks w)) = Some r ->
  let w' := fst (process_event e w) in
  snd (process_event e w) = inr tt /\
  data (state_tasks w') = od_delete u (data (state_tasks w)) /\
  (u ∉ map fst (data (state_tasks w'))) /\
  gval (TASKS w') st = gval (TASKS w) st + 1 /\
  (forall n, t_name r = Some n ->
     gval (TASKS_NAME w') (st, n) = gval (TASKS_NAME w) (st, n) + 1) /\
  TASKS_RUNTIME w' =
    TASKS_RUNTIME w ++ match ev_runtime e with
                       | Some rt => [(label_of_name (t_name r), rt)]
                       | None => []
                       end /\
  (forall s, s ∈ known_states w' ->
     TASKS w' !! s = Some (counter (map t_state (records w')) s)).
Proof.
  intros Hreach Hg Hm Hr Hu Hl w'.
  pose proof (reachable_inv w Hreach) as Hi. pose proof Hi as [Hok _].
  pose proof (inv_incr_ready_task w e st Hi) as Hi1.
  unfold w'. rewrite (process_event_ready e w st Hok Hg Hm Hr). cbn [fst snd].
  pose proof (incr_ready_task_spec e st w Hok) as Hspec.
  rewrite Hu, Hl in Hspec. cbn zeta in Hspec.
  split; [done|].
  split; [rewrite Hspec; by destruct (ev_runtime e)|].
  split.
  { rewrite Hspec. rewrite <- od_lookup_None_iff. destruct (ev_runtime e); simpl;
      apply od_lookup_delete_self. }
  split.
  { rewrite (gval_eq _ _ _ (collect_TASKS_ready _ st Hi1 Hr)).
    rewrite Hspec. destruct (ev_runtime e); simpl; apply gval_gauge_inc. }
  split.
  { intros n Hn. rewrite (gval_eq _ _ _ (collect_TASKS_NAME_ready _ st n Hi1 Hr)).
    rewrite Hspec, Hn. destruct (ev_runtime e); simpl; apply gval_gauge_inc. }
  split.
  { simpl. rewrite Hspec. destruct (ev_runtime e); simpl; [done|]. by rewrite app_nil_r. }
  intros s Hs. by apply collect_TASKS_known.
Qed.

Lemma ready_event_present_record_witness :
  let w0 := fst (process_event (ev "task-received" "a" 1 (Some "add") None) (init_world 10)) in
  let e := ev "task-succeeded" "a" 4 None (Some 3) in
  let w' := fst (process_event e w0) in
  snd (process_event e w0) = inr tt /\
  data (state_tasks w') = od_delete "a" (data (state_tasks w0)) /\
  ("a" ∉ map fst (data (state_tasks w'))) /\
  gval (TASKS w') SUCCESS = gval (TASKS w0) SUCCESS + 1 /\
  (forall n, t_name (mkTask (Some "add") RECEIVED (Some 1)) = Some n ->
     gval (TASKS_NAME w') (SUCCESS, n) = gval (TASKS_NAME w0) (SUCCESS, n) + 1) /\
  TASKS_RUNTIME w' = TASKS_RUNTIME w0 ++ [(label_of_name (Some "add"), 3)] /\
  (forall s, s ∈ known_states w' ->
     TASKS w' !! s = Some (counter (map t_state (records w')) s)).
Proof.
  intros w0 e w'.
  refine (ready_event_present_record w0 e SUCCESS "a" (mkTask (Some "add") RECEIVED (Some 1))
            _ _ _ _ _ _).
  - apply reach_event, reach_init.
  - vm_compute. reflexivity.
  - vm_compute. reflexivity.
  - vm_compute. reflexivity.
  - vm_compute. reflexivity.
  - vm_compute. reflexivity.
Defined.

(** [C10] A terminal event for an id absent from the registry (evicted or
    never seen) raises nothing, adds exactly 1 to [tasks{state}], creates
    no record and leaves the registry as it was, observes no runtime and no
    latency, and increments no [tasks_by_name] series: the state after it is
    the aggregation pass run on the state with only [tasks{state}] bumped,
    so [tasks_by_name] only gets the pass's counts over the unchanged
    registry, and its series of terminal states stay as they were. *)
Theorem ready_event_absent_record w e st u :
  reachable w ->
  group_from (ev_type e) = "task" ->
  TASK_EVENT_TO_STATE (py_slice_from 5 (ev_type e)) = Some st ->
  is_ready st = true ->
  ev_uuid e = Some u ->
  od_lookup u (data (state_tasks w)) = None ->
  let w' := fst (process_event e w) in
  snd (process_event e w) = inr tt /\
  w' = collect_unready_world (upd_TASKS (gauge_inc st) w) /\
  state_tasks w' = state_tasks w /\
  gval (TASKS w') st = gval (TASKS w) st + 1 /\
  TASKS_NAME w' = TASKS_NAME (collect_unready_world w) /\
  (forall s n, is_ready s = true -> TASKS_NAME w' !! (s, n) = TASKS_NAME w !! (s, n)) /\
  TASKS_RUNTIME w' = TASKS_RUNTIME w /\
  LATENCY w' = LATENCY w.
Proof.
  intros Hreach Hg Hm Hr Hu Hl w'.
  pose proof (reachable_inv w Hreach) as Hi. pose proof Hi as [Hok _].
  assert (Hw1 : fst (incr_ready_task e st w) = upd_TASKS (gauge_inc st) w).
  { rewrite (incr_ready_task_spec e st w Hok), Hu, Hl. done. }
  assert (Hi1 : inv (upd_TASKS (gauge_inc st) w)) by (by apply (inv_frame w)).
  unfold w'. rewrite (process_event_ready e w st Hok Hg Hm Hr). cbn [fst snd].
  rewrite Hw1.
  split; [done|]. split; [done|]. split; [done|].
  split.
  { rewrite (gval_eq _ _ _ (collect_TASKS_ready _ st Hi1 Hr)). apply gval_gauge_inc. }
  split; [done|].
  split; [|done].
  intros s n Hs. by rewrite (collect_TASKS_NAME_ready _ s n Hi1 Hs).
Qed.

Lemma ready_event_absent_record_witness :
  let w0 := fst (process_event (ev "task-received" "a" 1 (Some "add") None) (init_world 10)) in
  let e := ev "task-failed" "b" 4 None (Some 3) in
  let w' := fst (process_event e w0) in
  snd (process_event e w0) = inr tt /\
  w' = collect_unready_world (upd_TASKS (gauge_inc FAILURE) w0) /\
  state_tasks w' = state_tasks w0 /\
  gval (TASKS w') FAILURE = gval (TASKS w0) FAILURE + 1 /\
  TASKS_NAME w' = TASKS_NAME (collect_unready_world w0) /\
  (forall s n, is_ready s = true -> TASKS_NAME w' !! (s, n) = TASKS_NAME w0 !! (s, n)) /\
  TASKS_RUNTIME w' = TASKS_RUNTIME w0 /\
  LATENCY w' = LATENCY w0.
Proof.
  intros w0 e w'.
  refine (ready_event_absent_record w0 e FAILURE "b" _ _ _ _ _ _).
  - apply reach_event, reach_init.
  - vm_compute. reflexivity.
  - vm_compute. reflexivity.
  - vm_compute. reflexivity.
  - vm_compute. reflexivity.
  - vm_compute. reflexivity.
Defined.

(** ** [WorkerMonitoringThread] *)

(** [C7] A ping answered by the workers [replies] sets [workers] to their
    number and changes nothing else; a ping that raises leaves the state,
    [workers] included, as it was. Neither raises out of the method. *)
Theorem update_workers_count_spec replies w :
  fst (update_workers_count (Some replies) w) =
    upd_WORKERS (fun _ => Z.of_nat (length replies)) w /\
  WORKERS (fst (update_workers_count (Some replies) w)) = Z.of_nat (length replies) /\
  snd (update_workers_count (Some replies) w) = inr tt /\
  update_workers_count None w = (w, inr tt).
Proof. done. Qed.

Example ex_workers_three_then_failure :
  WORKERS (fst (update_workers_count None
             (fst (update_workers_count (Some ["w1"; "w2"; "w3"]) (init_world 10))))) = 3.
Proof. reflexivity. Qed.

(** ** [QueueMonitoringThread.get_queue_names] *)

Lemma fold_left_append_names (node : list QueueDesc) acc :
  fold_left (fun names queue => app names [qd_name queue]) node acc = acc ++ map qd_name node.
Proof.
  revert acc. induction node as [|q node IH]; intros acc; simpl; [by rewrite app_nil_r|].
  rewrite IH. by rewrite <- app_assoc.
Qed.

Lemma fold_left_append_nodes (nodes : list (list QueueDesc)) acc :
  fold_left (fun names (node : list QueueDesc) =>
               fold_left (fun names queue => app names [qd_name queue]) node names)
            nodes acc = acc ++ concat (map (map qd_name) nodes).
Proof.
  revert acc. induction nodes as [|node nodes IH]; intros acc; simpl; [by rewrite app_nil_r|].
  rewrite IH, fold_left_append_names. by rewrite <- app_assoc.
Qed.

(** [C4] The queue names are not deduplicated: two workers consuming the
    queue ["celery"] make it appear twice. *)
Lemma get_queue_names_duplicates :
  let active := Some [("w1", [mkQueueDesc "celery"]); ("w2", [mkQueueDesc "celery"])] in
  snd (get_queue_names active (init_world 10)) = inr ["celery"; "celery"] /\
  ~ NoDup ["celery"; "celery"].
Proof.
  split; [reflexivity|]. intros Hnd. apply NoDup_cons in Hnd as [Hn _].
  apply Hn. apply list_elem_of_here.
Qed.

(** [C4] (as the code has it) The queue names are the concatenation, in
    worker order, of each worker's descriptor names, duplicates kept; the
    state is not changed, and a failed introspection raises
    [AttributeError] out of [update_queues_metrics]. *)
Theorem get_queue_names_spec m redis w :
  get_queue_names (Some m) w = (w, inr (concat (map (fun p => map qd_name (snd p)) m))) /\
  get_queue_names None w = (w, inl AttributeError) /\
  update_queues_metrics None redis w = (w, inl AttributeError).
Proof.
  split; [|done]. unfold get_queue_names, ret. f_equal. f_equal.
  rewrite fold_left_append_nodes. simpl. f_equal. by rewrite map_map.
Qed.

(** ** Latency observations *)

Lemma incr_ready_task_LATENCY e st w :
  cache_ok (state_tasks w) -> LATENCY (fst (incr_ready_task e st w)) = LATENCY w.
Proof. intros Hok. rewrite (incr_ready_task_spec e st w Hok). repeat case_match; done. Qed.

Lemma collect_tasks_LATENCY e st w :
  cache_ok (state_tasks w) -> LATENCY (fst (collect_tasks e st w)) = LATENCY w.
Proof.
  intros Hok. unfold collect_tasks, bind.
  assert (H1 : LATENCY (fst ((if is_ready st then incr_ready_task e st
                              else on_cache (state_event e)) w)) = LATENCY w).
  { destruct (is_ready st); [by apply incr_ready_task_LATENCY|by rewrite on_cache_run]. }
  destruct ((if is_ready st then incr_ready_task e st else on_cache (state_event e)) w)
    as [w1 [x|y]]; simpl in *; [done|].
  unfold collect_unready_tasks, modify. done.
Qed.

Lemma bind_collect_LATENCY {A} (m : SE World A) e st w :
  inv (fst (m w)) ->
  LATENCY (fst (bind m (fun _ => collect_tasks e st) w)) = LATENCY (fst (m w)).
Proof.
  intros Hi. unfold bind. destruct (m w) as [w1 [x|y]]; simpl in *; [done|].
  apply collect_tasks_LATENCY, Hi.
Qed.

(** [C2] For an event of a task id [u] carrying [local_received = a], a
    latency observation is made exactly when the event maps to [STARTED]
    and the registry's record of [u] is in state [RECEIVED]; the value
    observed is [a] minus the record's [local_received], which a record in
    state [RECEIVED] always has (only a bare [PENDING] record, left by a
    failed heap step when [max_tasks_in_memory <= 0], lacks it). A
    [STARTED] event after a record in any other state (for
    instance [RETRY]), or with no record, observes nothing, and no other
    event observes anything. Applied event by event, this settles every
    sequence of events. *)
Theorem latency_observation w e st u a :
  reachable w ->
  group_from (ev_type e) = "task" ->
  TASK_EVENT_TO_STATE (py_slice_from 5 (ev_type e)) = Some st ->
  ev_uuid e = Some u ->
  ev_local_received e = Some a ->
  LATENCY (fst (process_event e w)) =
    LATENCY w ++
    (if String.eqb st STARTED then
       match od_lookup u (data (state_tasks w)) with
       | Some v =>
           if String.eqb (t_state v) RECEIVED then
             match t_local_received v with Some b => [a - b] | None => [] end
           else []
       | None => []
       end
     else []) /\
  (forall v, od_lookup u (data (state_tasks w)) = Some v -> t_state v = RECEIVED ->
     t_local_received v <> None).
Proof.
  intros Hreach Hg Hm Hu Hlr.
  pose proof (reachable_inv w Hreach) as Hi. pose proof Hi as (Hok & Hrec & _).
  assert (Hrl : forall v, od_lookup u (data (state_tasks w)) = Some v -> t_state v = RECEIVED ->
                t_local_received v <> None).
  { intros v Hv Hs. destruct (Hrec u v Hv) as [_ [Hn|Hp]]; [done|]. by rewrite Hs in Hp. }
  split; [|done].
  unfold process_event. rewrite Hg, String.eqb_refl. cbv zeta. rewrite Hm.
  destruct (String.eqb st STARTED).
  - rewrite bind_collect_LATENCY by (by apply inv_observe_latency).
    rewrite (observe_latency_spec e w u Hok Hu).
    destruct (od_lookup u (data (state_tasks w))) as [v|] eqn:Hl; cbv zeta.
    + destruct (String.eqb_spec (t_state v) RECEIVED) as [Hs|Hs]; rewrite ?Hlr.
      * destruct (t_local_received v) as [b|] eqn:Hb; [done|].
        exfalso. by apply (Hrl v eq_refl Hs).
      * simpl. by rewrite app_nil_r.
    + simpl. by rewrite app_nil_r.
  - rewrite bind_collect_LATENCY by done. simpl. by rewrite app_nil_r.
Qed.

Lemma latency_observation_witness :
  let w0 := fst (process_event (ev "task-received" "a" 3 (Some "add") None) (init_world 10)) in
  let e := ev "task-started" "a" 8 None None in
  LATENCY (fst (process_event e w0)) = LATENCY w0 ++ [5] /\
  (forall v, od_lookup "a" (data (state_tasks w0)) = Some v -> t_state v = RECEIVED ->
     t_local_received v <> None).
Proof.
  intros w0 e.
  refine (latency_observation w0 e STARTED "a" 8 _ _ _ _ _).
  - apply reach_event, reach_init.
  - vm_compute. reflexivity.
  - vm_compute. reflexivity.
  - vm_compute. reflexivity.
  - vm_compute. reflexivity.
Defined.

Example ex_received_started :
  LATENCY (run_events (init_world 10)
     [ev "task-received" "a" 3 (Some "add") None; ev "task-started" "a" 8 None None]) = [5].
Proof. vm_compute. reflexivity. Qed.

Example ex_received_retried_started :
  LATENCY (run_events (init_world 10)
     [ev "task-received" "a" 3 (Some "add") None; ev "task-retried" "a" 5 None None;
      ev "task-started" "a" 8 None None]) = [].
Proof. vm_compute. reflexivity. Qed.

(** ** Terminal-state counters *)

Lemma observe_latency_TASKS e w :
  cache_ok (state_tasks w) -> TASKS (fst (observe_latency e w)) = TASKS w.
Proof.
  intros Hok. destruct (ev_uuid e) as [u|] eqn:Hu; [|by rewrite observe_latency_no_uuid].
  rewrite (observe_latency_spec e w u Hok Hu). repeat case_match; done.
Qed.

Lemma gval_gauge_inc_le {K} `{Countable K} (k j : K) (g : gmap K Z) :
  gval g j <= gval (gauge_inc k g) j.
Proof.
  destruct (decide (k = j)) as [->|Hne]; [rewrite gval_gauge_inc; lia|].
  rewrite (gval_eq _ _ _ (gauge_inc_other k j g Hne)). lia.
Qed.

Lemma process_event_ready_mono w e s :
  inv w -> is_ready s = true ->
  inv (fst (process_event e w)) /\ gval (TASKS w) s <= gval (TASKS (fst (process_event e w))) s.
Proof.
  intros Hi Hs. unfold process_event.
  destruct (String.eqb_spec (group_from (ev_type e)) "task") as [Hg|]; [|split; simpl; [done|lia]].
  destruct (TASK_EVENT_TO_STATE (py_slice_from 5 (ev_type e))) as [st|] eqn:Hm;
    [|split; simpl; [done|lia]].
  apply (bind_pres (fun w' => inv w' /\ gval (TASKS w) s <= gval (TASKS w') s));
    [split; [done|lia]| |].
  { intros w1 [Hi1 Hle]. destruct (String.eqb st STARTED); [|done].
    split; [by apply inv_observe_latency|]. rewrite observe_latency_TASKS; [done|apply Hi1]. }
  intros _ w1 [Hi1 Hle]. unfold collect_tasks.
  apply (bind_pres (fun w' => inv w' /\ gval (TASKS w) s <= gval (TASKS w') s)); [done| |].
  - intros w2 [Hi2 Hle2]. destruct (is_ready st) eqn:Hr.
    + split; [by apply inv_incr_ready_task|].
      rewrite (incr_ready_task_spec e st w2 (proj1 Hi2)).
      assert (Hg2 : gval (TASKS w2) s <= gval (TASKS (upd_TASKS (gauge_inc st) w2)) s)
        by apply gval_gauge_inc_le.
      repeat case_match; simpl in *; lia.
    + split; [|by rewrite on_cache_run].
      apply (inv_state_event w2 e st Hi2 Hr). by rewrite (task_subject _ st Hg Hm).
  - intros _ w2 [Hi2 Hle2]. split; [by apply inv_collect|].
    unfold collect_unready_tasks, modify. cbn [fst].
    by rewrite (gval_eq _ _ _ (collect_TASKS_ready w2 s Hi2 Hs)).
Qed.

(** [C9] The claim lists [REJECTED] among the terminal states, but Celery's
    [READY_STATES] are only [SUCCESS], [FAILURE] and [REVOKED]: a rejected
    task is tracked as an unready record, so its [tasks{REJECTED}] series is
    written by the aggregation pass and falls back when the record leaves
    the registry, here on a later [task-succeeded] event. *)
Lemma tasks_REJECTED_decreases :
  let w1 := run_events (init_world 10) [ev "task-rejected" "a" 1 None None] in
  let w2 := fst (process_event (ev "task-succeeded" "a" 2 None None) w1) in
  reachable w1 /\ is_ready REJECTED = false /\
  gval (TASKS w1) REJECTED = 1 /\ gval (TASKS w2) REJECTED = 0.
Proof.
  split; [|split; [reflexivity|split; vm_compute; reflexivity]].
  unfold run_events, capture. unfold bind at 1.
  destruct (process_event _ (init_world 10)) as [w0 r] eqn:E.
  assert (Hr : reachable w0).
  { change w0 with (fst (w0, r)). rewrite <- E. apply reach_event, reach_init. }
  destruct r; simpl; [done|]. done.
Qed.

(** [C9] (as the code has it) For the states of [READY_STATES] ([SUCCESS],
    [FAILURE], [REVOKED]) [tasks{state}] never decreases while events are
    processed, one at a time or as a capture of a whole sequence, from any
    reachable state, whatever events were evicted from the registry: the
    aggregation pass only writes the states of the known-states set, which
    holds no ready state. *)
Theorem ready_counters_monotone w s e es :
  reachable w -> is_ready s = true ->
  gval (TASKS w) s <= gval (TASKS (fst (process_event e w))) s /\
  gval (TASKS w) s <= gval (TASKS (fst (capture es w))) s.
Proof.
  intros Hreach Hs. split.
  { apply process_event_ready_mono; [by apply reachable_inv|done]. }
  revert w Hreach. induction es as [|e' es IH]; intros w Hreach; simpl; [lia|].
  unfold bind. pose proof (reach_event w e' Hreach) as Hr1.
  destruct (process_event_ready_mono w e' s (reachable_inv w Hreach) Hs) as [_ Hle].
  destruct (process_event e' w) as [w1 [x|y]]; simpl in *; [done|].
  specialize (IH w1 Hr1). lia.
Qed.

Lemma ready_counters_monotone_witness :
  let w0 := fst (process_event (ev "task-received" "a" 1 (Some "add") None) (init_world 10)) in
  gval (TASKS w0) SUCCESS <=
    gval (TASKS (fst (process_event (ev "task-rejected" "a" 2 None None) w0))) SUCCESS /\
  gval (TASKS w0) SUCCESS <=
    gval (TASKS (fst (capture [ev "task-succeeded" "a" 3 None None;
                               ev "task-revoked" "b" 4 None None] w0))) SUCCESS.
Proof.
  intros w0. apply ready_counters_monotone.
  - apply reach_event, reach_init.
  - vm_compute. reflexivity.
Defined.

(** ** Unready events and the bounded registry *)

Lemma state_event_ok e c u h ts lr cl :
  cache_ok c -> 0 < limit c ->
  ev_uuid e = Some u -> ev_hostname e = Some h -> ev_timestamp e = Some ts ->
  ev_local_received e = Some lr -> ev_clock e = Some cl ->
  state_event e c =
  (mkLRU (limit c)
     match od_lookup u (data c) with
     | Some v => od_set u (task_event (partition_subject (ev_type e)) e v) (data c)
     | None => evicted (limit c) (data c) ++
               [(u, task_event (partition_subject (ev_type e)) e new_Task)]
     end, inr tt).
Proof.
  intros Hok Hlim Hu Hh Hts Hlr Hcl.
  rewrite (state_event_spec e c u h ts lr cl Hok Hu Hh Hts Hlr Hcl).
  destruct (od_lookup u (data c)); by zbool.
Qed.


Lemma od_lookup_refreshed u v d : od_lookup u (od_delete u d ++ [(u, v)]) = Some v.
Proof. by rewrite od_lookup_app_last, od_lookup_delete_self, String.eqb_refl. Qed.

Lemma od_set_refreshed u v v' d :
  od_set u v' (od_delete u d ++ [(u, v)]) = od_delete u d ++ [(u, v')].
Proof. apply od_set_last, od_lookup_delete_self. Qed.

(** The lookup of [_observe_latency] only moves the record to the
    most-recently-used end; with [local_received] present nothing is
    raised, and only [LATENCY] among the metrics may change. *)
Lemma observe_latency_step w e u :
  inv w -> ev_uuid e = Some u -> ev_local_received e <> None ->
  exists w1, observe_latency e w = (w1, inr tt) /\
  TASKS w1 = TASKS w /\ TASKS_NAME w1 = TASKS_NAME w /\ TASKS_RUNTIME w1 = TASKS_RUNTIME w /\
  state_tasks w1 =
    match od_lookup u (data (state_tasks w)) with
    | Some v => mkLRU (limit (state_tasks w)) (od_delete u (data (state_tasks w)) ++ [(u, v)])
    | None => state_tasks w
    end.
Proof.
  intros Hi Hu Hlr. pose proof Hi as (Hok & Hrec & _).
  rewrite (observe_latency_spec e w u Hok Hu).
  destruct (od_lookup u (data (state_tasks w))) as [v|] eqn:Hl; cbv zeta.
  - destruct (String.eqb_spec (t_state v) RECEIVED) as [Hs|Hs].
    + destruct (ev_local_received e) as [a|]; [|done].
      destruct (t_local_received v) as [b|] eqn:Hb.
      * eexists. split; [reflexivity|]. by repeat split.
      * exfalso. destruct (Hrec u v Hl) as [_ [Hn|Hp]]; [done|]. by rewrite Hs in Hp.
    + eexists. split; [reflexivity|]. by repeat split.
  - eexists. split; [reflexivity|]. by repeat split.
Qed.

(** An unready event carrying every field [State._event] reads, with a
    positive limit: a [STARTED] event has already moved a known record to
    the most-recently-used end (the lookup of [_observe_latency]), any
    other event updates it where it stands; a new id is appended, making
    room by dropping the first entry when the cache is full. Nothing is
    raised, and among the metrics only the aggregation pass and [LATENCY]
    write. *)
Lemma process_event_unready w e st u h ts lr cl :
  inv w -> 0 < limit (state_tasks w) ->
  group_from (ev_type e) = "task" ->
  TASK_EVENT_TO_STATE (py_slice_from 5 (ev_type e)) = Some st ->
  is_ready st = false ->
  ev_uuid e = Some u -> ev_hostname e = Some h -> ev_timestamp e = Some ts ->
  ev_local_received e = Some lr -> ev_clock e = Some cl ->
  exists w1,
  process_event e w =
    (collect_unready_world
       (upd_state_tasks (fun _ => mkLRU (limit (state_tasks w))
          match od_lookup u (data (state_tasks w)) with
          | Some v =>
              if String.eqb st STARTED
              then od_delete u (data (state_tasks w)) ++
                   [(u, task_event (partition_subject (ev_type e)) e v)]
              else od_set u (task_event (partition_subject (ev_type e)) e v) (data (state_tasks w))
          | None => evicted (limit (state_tasks w)) (data (state_tasks w)) ++
                    [(u, task_event (partition_subject (ev_type e)) e new_Task)]
          end) w1), inr tt) /\
  TASKS w1 = TASKS w /\ TASKS_NAME w1 = TASKS_NAME w /\ TASKS_RUNTIME w1 = TASKS_RUNTIME w.
Proof.
  intros Hi Hlim Hg Hm Hr Hu Hh Hts Hlr Hcl. pose proof Hi as (Hok & _).
  unfold process_event. rewrite Hg, String.eqb_refl. cbv zeta. rewrite Hm.
  unfold collect_tasks. rewrite Hr.
  destruct (String.eqb st STARTED).
  - destruct (observe_latency_step w e u Hi Hu) as (w1 & E & H1 & H2 & H3 & Hc);
      [by rewrite Hlr|].
    exists w1. split; [|done].
    unfold bind at 1. rewrite E. unfold bind. rewrite on_cache_run, Hc.
    destruct (od_lookup u (data (state_tasks w))) as [v|] eqn:Hl.
    + rewrite (state_event_ok e _ u h ts lr cl); [|by apply (cache_ok_refresh _ u v)|done..].
      simpl. by rewrite od_lookup_refreshed, od_set_refreshed.
    + rewrite (state_event_ok e (state_tasks w) u h ts lr cl Hok Hlim Hu Hh Hts Hlr Hcl), Hl.
      done.
  - exists w. split; [|done].
    unfold bind, ret. rewrite on_cache_run.
    rewrite (state_event_ok e (state_tasks w) u h ts lr cl Hok Hlim Hu Hh Hts Hlr Hcl).
    destruct (od_lookup u (data (state_tasks w))); done.
Qed.





(** ** Events with missing fields *)

Lemma od_lookup_refresh_same u v d k :
  od_lookup u d = Some v -> od_lookup k (od_delete u d ++ [(u, v)]) = od_lookup k d.
Proof.
  intros Hl. rewrite od_lookup_app_last, od_lookup_delete.
  destruct (String.eqb_spec u k) as [->|]; [by rewrite Hl|].
  by destruct (od_lookup k d).
Qed.

(** [_observe_latency] writes no metric but [LATENCY], and that only when
    the event has [local_received]; it may move the looked-up record to the
    most-recently-used end, and the only exception it lets out is
    [KeyError]. *)
Lemma observe_latency_frame w e :
  inv w ->
  let w1 := fst (observe_latency e w) in
  limit (state_tasks w1) = limit (state_tasks w) /\
  (forall k, od_lookup k (data (state_tasks w1)) = od_lookup k (data (state_tasks w))) /\
  TASKS w1 = TASKS w /\ TASKS_NAME w1 = TASKS_NAME w /\ TASKS_RUNTIME w1 = TASKS_RUNTIME w /\
  (ev_uuid e = None \/ ev_local_received e = None -> LATENCY w1 = LATENCY w) /\
  (snd (observe_latency e w) = inr tt \/ snd (observe_latency e w) = inl KeyError).
Proof.
  intros Hi w1. unfold w1. pose proof Hi as (Hok & Hrec & _).
  destruct (ev_uuid e) as [u|] eqn:Hu.
  2:{ rewrite observe_latency_no_uuid by done. simpl. naive_solver. }
  rewrite (observe_latency_spec e w u Hok Hu).
  destruct (od_lookup u (data (state_tasks w))) as [v|] eqn:Hl; cbv zeta; [|simpl; naive_solver].
  assert (Hk : forall k, od_lookup k (od_delete u (data (state_tasks w)) ++ [(u, v)]) =
                         od_lookup k (data (state_tasks w)))
    by (intros k; by apply od_lookup_refresh_same).
  destruct (String.eqb_spec (t_state v) RECEIVED) as [Hs|Hs]; [|simpl; naive_solver].
  destruct (ev_local_received e) as [a|]; [|simpl; naive_solver].
  destruct (t_local_received v) as [b|] eqn:Hb;
    [|exfalso; destruct (Hrec u v Hl) as [_ [Hn|Hp]]; [done|by rewrite Hs in Hp]].
  simpl. repeat split; try done; [intros [H|H]; discriminate|naive_solver].
Qed.

(** [C3] Events are not validated: a [task-succeeded] event with no field
    but its type still adds 1 to [tasks{SUCCESS}] and raises nothing, and a
    [task-failed] event without [local_received] for a tracked id still
    removes the id from the registry. *)
Lemma malformed_events_change_state :
  let e := mkEvent "task-succeeded" None None None None None None None in
  let w0 := fst (process_event (ev "task-received" "a" 1 (Some "add") None) (init_world 10)) in
  let e' := mkEvent "task-failed" (Some "a") (Some "w1") (Some 2) None (Some 0) None None in
  snd (process_event e (init_world 10)) = inr tt /\
  gval (TASKS (init_world 10)) SUCCESS = 0 /\
  gval (TASKS (fst (process_event e (init_world 10)))) SUCCESS = 1 /\
  keys w0 = ["a"] /\ snd (process_event e' w0) = inr tt /\
  keys (fst (process_event e' w0)) = [] /\
  gval (TASKS (fst (process_event e' w0))) FAILURE = 1.
Proof. vm_compute. repeat split; reflexivity. Qed.

(** [C3] (as the code has it) Task events are not checked for their
    fields. A terminal event (state in [READY_STATES]) is counted whatever
    it lacks: without [uuid] it adds 1 to [tasks{state}], leaves the
    registry as it was and raises nothing; without [local_received] it is
    processed exactly as if it had one. An unready event lacking one of the
    fields [State._event] reads ([uuid], [hostname], [timestamp],
    [local_received], [clock]) raises [KeyError]: the registry keeps the
    same records (an existing one may move to the most-recently-used end),
    no counter, [tasks_by_name] or runtime series changes, and no latency
    is observed when [uuid] or [local_received] is the missing one. The
    exception is not caught by the handler: it ends [recv.capture], so the
    later events of that capture are not processed. *)
Theorem malformed_event_handling w e st :
  reachable w ->
  group_from (ev_type e) = "task" ->
  TASK_EVENT_TO_STATE (py_slice_from 5 (ev_type e)) = Some st ->
  (is_ready st = true -> ev_uuid e = None ->
   process_event e w = (collect_unready_world (upd_TASKS (gauge_inc st) w), inr tt)) /\
  (is_ready st = true -> forall x,
   process_event e w =
   process_event (mkEvent (ev_type e) (ev_uuid e) (ev_hostname e) (ev_timestamp e) x
                          (ev_clock e) (ev_name e) (ev_runtime e)) w) /\
  (is_ready st = false ->
   (ev_uuid e = None \/ ev_hostname e = None \/ ev_timestamp e = None \/
    ev_local_received e = None \/ ev_clock e = None) ->
   let w' := fst (process_event e w) in
   snd (process_event e w) = inl KeyError /\
   limit (state_tasks w') = limit (state_tasks w) /\
   (forall k, od_lookup k (data (state_tasks w')) = od_lookup k (data (state_tasks w))) /\
   TASKS w' = TASKS w /\ TASKS_NAME w' = TASKS_NAME w /\ TASKS_RUNTIME w' = TASKS_RUNTIME w /\
   (ev_uuid e = None \/ ev_local_received e = None -> LATENCY w' = LATENCY w) /\
   forall es, capture (e :: es) w = (w', inl KeyError)).
Proof.
  intros Hreach Hg Hm. pose proof (reachable_inv w Hreach) as Hi. pose proof Hi as (Hok & _).
  split.
  { intros Hr Hu. rewrite (process_event_ready e w st Hok Hg Hm Hr).
    rewrite (incr_ready_task_spec e st w Hok), Hu. done. }
  split.
  { intros Hr x.
    set (e2 := mkEvent (ev_type e) (ev_uuid e) (ev_hostname e) (ev_timestamp e) x
                       (ev_clock e) (ev_name e) (ev_runtime e)).
    rewrite (process_event_ready e w st Hok Hg Hm Hr).
    rewrite (process_event_ready e2 w st Hok Hg Hm Hr).
    rewrite (incr_ready_task_spec e st w Hok), (incr_ready_task_spec e2 st w Hok). done. }
  intros Hr Hmiss w'.
  assert (Hev : snd (process_event e w) = inl KeyError /\
    limit (state_tasks w') = limit (state_tasks w) /\
    (forall k, od_lookup k (data (state_tasks w')) = od_lookup k (data (state_tasks w))) /\
    TASKS w' = TASKS w /\ TASKS_NAME w' = TASKS_NAME w /\ TASKS_RUNTIME w' = TASKS_RUNTIME w /\
    (ev_uuid e = None \/ ev_local_received e = None -> LATENCY w' = LATENCY w)).
  { unfold w'. unfold process_event. rewrite Hg, String.eqb_refl. cbv zeta. rewrite Hm.
    unfold collect_tasks. rewrite Hr. unfold bind.
    assert (Hstep : let p := (if String.eqb st STARTED then observe_latency e else ret tt) w in
      limit (state_tasks (fst p)) = limit (state_tasks w) /\
      (forall k, od_lookup k (data (state_tasks (fst p))) = od_lookup k (data (state_tasks w))) /\
      TASKS (fst p) = TASKS w /\ TASKS_NAME (fst p) = TASKS_NAME w /\
      TASKS_RUNTIME (fst p) = TASKS_RUNTIME w /\
      (ev_uuid e = None \/ ev_local_received e = None -> LATENCY (fst p) = LATENCY w) /\
      (snd p = inr tt \/ snd p = inl KeyError)).
    { destruct (String.eqb st STARTED); [|simpl; naive_solver].
      pose proof (observe_latency_frame w e Hi) as Hf. cbv zeta in Hf |- *. naive_solver. }
    cbv zeta in Hstep.
    destruct ((if String.eqb st STARTED then observe_latency e else ret tt) w)
      as [w1 r1] eqn:E; cbn [fst snd] in Hstep |- *.
    destruct Hstep as (H1 & H2 & H3 & H4 & H5 & H6 & [->| ->]).
    - rewrite on_cache_run. rewrite (state_event_malformed e _ Hmiss). simpl.
      naive_solver.
    - simpl. naive_solver. }
  split; [apply Hev|]. split; [apply Hev|]. split; [apply Hev|].
  split; [apply Hev|]. split; [apply Hev|]. split; [apply Hev|]. split; [apply Hev|].
  intros es. simpl. unfold bind. destruct Hev as [Hk _].
  unfold w'. destruct (process_event e w) as [w2 r2]. simpl in *. by subst.
Qed.

Lemma malformed_event_handling_witness :
  let w := init_world 10 in
  let e := mkEvent "task-received" None (Some "w1") (Some 1) (Some 1) (Some 0) (Some "add") None in
  let st := RECEIVED in
  (is_ready st = true -> ev_uuid e = None ->
   process_event e w = (collect_unready_world (upd_TASKS (gauge_inc st) w), inr tt)) /\
  (is_ready st = true -> forall x,
   process_event e w =
   process_event (mkEvent (ev_type e) (ev_uuid e) (ev_hostname e) (ev_timestamp e) x
                          (ev_clock e) (ev_name e) (ev_runtime e)) w) /\
  (is_ready st = false ->
   (ev_uuid e = None \/ ev_hostname e = None \/ ev_timestamp e = None \/
    ev_local_received e = None \/ ev_clock e = None) ->
   let w' := fst (process_event e w) in
   snd (process_event e w) = inl KeyError /\
   limit (state_tasks w') = limit (state_tasks w) /\
   (forall k, od_lookup k (data (state_tasks w')) = od_lookup k (data (state_tasks w))) /\
   TASKS w' = TASKS w /\ TASKS_NAME w' = TASKS_NAME w /\ TASKS_RUNTIME w' = TASKS_RUNTIME w /\
   (ev_uuid e = None \/ ev_local_received e = None -> LATENCY w' = LATENCY w) /\
   forall es, capture (e :: es) w = (w', inl KeyError)).
Proof.
  intros w e st.
  refine (malformed_event_handling w e st _ _ _).
  - apply reach_init.
  - vm_compute. reflexivity.
  - vm_compute. reflexivity.
Defined.

(** ** The baseline reset *)

Lemma fold_left_proj {A B} (p : World -> B) (g : World -> A -> World) (l : list A) w :
  (forall w x, p (g w x) = p w) -> p (fold_left g l w) = p w.
Proof.
  intros Hg. revert w. induction l as [|x l IH]; intros w; simpl; [done|].
  by rewrite IH, Hg.
Qed.

Lemma fold_zero_lookup {K} `{Countable K} (z : K -> bool)
    (f : gmap K Z -> K * Z -> gmap K Z) (l : list (K * Z)) (acc : gmap K Z) k :
  (forall acc kv, f acc kv = if z kv.1 then <[kv.1 := 0]> acc else acc) ->
  fold_left f l acc !! k =
  if (bool_decide (k ∈ map fst l) && z k)%bool then Some 0 else acc !! k.
Proof.
  intros Hf. revert acc. induction l as [|[k0 v0] l IH]; intros acc; simpl.
  - first [done | by rewrite bool_decide_false by apply not_elem_of_nil].
  - rewrite IH, Hf. simpl. destruct (decide (k0 = k)) as [<-|Hne].
    + rewrite (bool_decide_true (k0 ∈ k0 :: map fst l)) by apply list_elem_of_here.
      destruct (z k0); simpl.
      * rewrite lookup_insert, decide_True by done. by case_bool_decide.
      * by rewrite andb_false_r.
    + assert (Hb : bool_decide (k ∈ k0 :: map fst l) = bool_decide (k ∈ map fst l)).
      { apply bool_decide_ext. rewrite elem_of_cons. naive_solver. }
      rewrite Hb. destruct (z k0); [|done].
      by rewrite lookup_insert, decide_False by done.
Qed.

(** [_reset_metrics] keeps the series it does not zero and creates none. *)
Lemma reset_metrics_lookup {K} `{Countable K} (g : gmap K Z) (kl : option (gset K)) k :
  reset_metrics g kl !! k =
  match g !! k with
  | None => None
  | Some v => match kl with
              | Some known => if bool_decide (k ∈ known) then Some v else Some 0
              | None => Some 0
              end
  end.
Proof.
  unfold reset_metrics.
  rewrite (fold_zero_lookup (fun k => match kl with
                                      | Some known => negb (bool_decide (k ∈ known))
                                      | None => true end)).
  2:{ intros acc kv. destruct kl as [known|]; [|done]. by case_bool_decide. }
  assert (Hdom : k ∈ map fst (map_to_list g) <-> exists v, g !! k = Some v).
  { rewrite list_elem_of_fmap. split.
    - intros [[k' v] [-> Hin]]. apply elem_of_map_to_list in Hin. by exists v.
    - intros [v Hv]. exists (k, v). split; [done|]. by apply elem_of_map_to_list. }
  destruct (g !! k) as [v|] eqn:Hk.
  - rewrite bool_decide_true by (apply Hdom; by exists v).
    destruct kl as [known|]; [|done]. by case_bool_decide.
  - rewrite bool_decide_false; [done|]. intros Hin. apply Hdom in Hin. naive_solver.
Qed.

Lemma reset_metrics_None {K} `{Countable K} (g : gmap K Z) k :
  reset_metrics g None !! k = (fun _ => 0) <$> g !! k.
Proof. rewrite reset_metrics_lookup. by destruct (g !! k). Qed.

Lemma setup_names_TASKS_NAME st (names : list string) w k :
  TASKS_NAME (fold_left (fun w' task_name => upd_TASKS_NAME (<[(st, task_name) := 0]>) w')
                        names w) !! k =
  if bool_decide (k.1 = st /\ k.2 ∈ names) then Some 0 else TASKS_NAME w !! k.
Proof.
  revert w. induction names as [|n names IH]; intros w; simpl.
  - first [done | rewrite bool_decide_false; [done|]; intros [_ Hin];
                   by apply not_elem_of_nil in Hin].
  - rewrite IH. simpl. rewrite lookup_insert. destruct k as [s m]; simpl.
    destruct (decide ((st, n) = (s, m))) as [Heq|Hne].
    + injection Heq as <- <-. rewrite (bool_decide_true (st = st /\ n ∈ n :: names)).
      * repeat case_match; done.
      * split; [done|apply list_elem_of_here].
    + rewrite (bool_decide_ext (s = st /\ m ∈ n :: names) (s = st /\ m ∈ names)); [done|].
      rewrite elem_of_cons. naive_solver.
Qed.

Lemma setup_states_TASKS (states names : list string) w s :
  TASKS (fold_left (fun w state =>
            fold_left (fun w' task_name => upd_TASKS_NAME (<[(state, task_name) := 0]>) w')
                      names (upd_TASKS (<[state := 0]>) w)) states w) !! s =
  if bool_decide (s ∈ states) then Some 0 else TASKS w !! s.
Proof.
  revert w. induction states as [|st states IH]; intros w; simpl.
  - first [done | rewrite bool_decide_false; [done|apply not_elem_of_nil]].
  - rewrite IH. rewrite (fold_left_proj TASKS); [|done]. simpl. rewrite lookup_insert.
    destruct (decide (st = s)) as [<-|Hne].
    + rewrite (bool_decide_true (st ∈ st :: states)) by apply list_elem_of_here.
      repeat case_match; done.
    + rewrite (bool_decide_ext (s ∈ st :: states) (s ∈ states)); [done|].
      rewrite elem_of_cons. naive_solver.
Qed.

Lemma setup_states_TASKS_NAME (states names : list string) w k :
  TASKS_NAME (fold_left (fun w state =>
            fold_left (fun w' task_name => upd_TASKS_NAME (<[(state, task_name) := 0]>) w')
                      names (upd_TASKS (<[state := 0]>) w)) states w) !! k =
  if bool_decide (k.1 ∈ states /\ k.2 ∈ names) then Some 0 else TASKS_NAME w !! k.
Proof.
  revert w. induction states as [|st states IH]; intros w; simpl.
  - first [done | rewrite bool_decide_false; [done|]; intros [Hin _];
                   by apply not_elem_of_nil in Hin].
  - rewrite IH, setup_names_TASKS_NAME. simpl.
    repeat case_bool_decide; rewrite ?elem_of_cons in *; naive_solver.
Qed.

Ltac setup_frame :=
  unfold setup_metrics, bind, modify; cbn -[fold_left ALL_STATES];
  match goal with
  | |- ?p (fold_left _ _ _) = _ =>
      rewrite (fold_left_proj p); [reflexivity|];
      intros; rewrite (fold_left_proj p); reflexivity
  end.

Lemma setup_metrics_frame i w :
  let w' := fst (setup_metrics i w) in
  state_tasks w' = state_tasks w /\ known_states w' = known_states w /\
  known_states_names w' = known_states_names w /\ TASKS_RUNTIME w' = TASKS_RUNTIME w /\
  LATENCY w' = LATENCY w /\ QUEUE_SIZE w' = QUEUE_SIZE w /\ QUEUE_TASKS w' = QUEUE_TASKS w /\
  WORKERS w' = 0.
Proof.
  destruct i as [reg|]; [|done].
  repeat split; setup_frame.
Qed.

(** [C8] The reset with a successful introspection only zeroes the
    [tasks_by_name] series of the names registered now: after a stream
    failure, a series published for a task name no longer registered
    (here ["old"], replaced by ["new"]) keeps its value. *)
Lemma reset_keeps_unregistered_names :
  let evs := [ev "task-received" "a" 1 (Some "old") None; ev "task-succeeded" "a" 2 None None] in
  let w := monitor [Connected (Some [["old"]]) evs (Some [["new"]])] (init_world 10) in
  gval (TASKS_NAME w) (SUCCESS, "old") = 1 /\ gval (TASKS w) SUCCESS = 0.
Proof. vm_compute. split; reflexivity. Qed.

(** [C8] (as the code has it) [setup_metrics] raises nothing and sets
    [workers] to 0. When the introspection succeeds, it sets [tasks{s}] to
    0 for every [s] of [celery.states.ALL_STATES] and
    [tasks_by_name{s,n}] to 0 for those states and the task names [n]
    registered now, leaving every other series (other states, names no
    longer registered) as it was; when the introspection raises, it zeroes
    every [tasks] and [tasks_by_name] series published so far. It changes
    nothing else. [_monitor] runs it after connecting and before
    [recv.capture] processes any event, and runs it again, with a fresh
    introspection, in the failure handler before reconnecting. *)
Theorem setup_metrics_spec reg w ib es ia :
  let wn := fst (setup_metrics None w) in
  let ws := fst (setup_metrics (Some reg) w) in
  snd (setup_metrics None w) = inr tt /\ snd (setup_metrics (Some reg) w) = inr tt /\
  WORKERS wn = 0 /\ WORKERS ws = 0 /\
  (forall s, TASKS wn !! s = (fun _ => 0) <$> TASKS w !! s) /\
  (forall k, TASKS_NAME wn !! k = (fun _ => 0) <$> TASKS_NAME w !! k) /\
  (forall s, TASKS ws !! s = if bool_decide (s ∈ ALL_STATES) then Some 0 else TASKS w !! s) /\
  (forall s n, TASKS_NAME ws !! (s, n) =
     if bool_decide (s ∈ ALL_STATES /\ n ∈ concat reg) then Some 0
     else TASKS_NAME w !! (s, n)) /\
  (forall i, let w' := fst (setup_metrics i w) in
     state_tasks w' = state_tasks w /\ known_states w' = known_states w /\
     known_states_names w' = known_states_names w /\ TASKS_RUNTIME w' = TASKS_RUNTIME w /\
     LATENCY w' = LATENCY w /\ QUEUE_SIZE w' = QUEUE_SIZE w /\
     QUEUE_TASKS w' = QUEUE_TASKS w) /\
  monitor_attempt (Connected ib es ia) w =
    fst (setup_metrics ia (fst (capture es (fst (setup_metrics ib w))))) /\
  monitor_attempt (ConnectFailed ia) w = fst (setup_metrics ia w).
Proof.
  intros wn ws.
  split; [done|]. split; [done|].
  split; [apply (setup_metrics_frame None w)|].
  split; [apply (setup_metrics_frame (Some reg) w)|].
  split; [intros s; apply reset_metrics_None|].
  split; [intros k; apply reset_metrics_None|].
  split.
  { intros s. unfold ws, setup_metrics, bind, modify. cbn -[fold_left ALL_STATES].
    rewrite setup_states_TASKS. reflexivity. }
  split.
  { intros s n. unfold ws, setup_metrics, bind, modify. cbn -[fold_left ALL_STATES].
    rewrite setup_states_TASKS_NAME. simpl.
    rewrite (bool_decide_ext _ (s ∈ ALL_STATES /\ n ∈ concat reg)); [done|].
    rewrite elem_of_elements, elem_of_list_to_set. done. }
  split.
  { intros i w'. pose proof (setup_metrics_frame i w) as Hf. cbv zeta in Hf. naive_solver. }
  split; [|done].
  simpl. unfold bind. destruct ib; reflexivity.
Qed.

(** ** The queue sampling pass *)



Lemma task_loop_spec (q : string) (l : list (JSON * Z)) kt w :
  task_loop q l kt w =
  (upd_QUEUES id (fun g => fold_left (fun g tc => <[(q, py_str tc.1) := tc.2]> g) l g) w,
   inr (kt ++ map (fun tc => (q, tc.1)) l)).
Proof.
  revert kt w. induction l as [|[t c] l IH]; intros kt w; simpl.
  - unfold ret. f_equal; [by destruct w|]. by rewrite app_nil_r.
  - unfold bind, modify. rewrite IH. f_equal. by rewrite <- app_assoc.
Qed.




Lemma fold_insert_labels_is_Some (q : string) (l : list (JSON * Z)) (G : gmap (string * string) Z) k :
  is_Some (G !! k) -> is_Some (fold_left (fun g tc => <[(q, py_str tc.1) := tc.2]> g) l G !! k).
Proof.
  revert G. induction l as [|[t c] l IH]; intros G HG; simpl; [done|].
  apply IH. rewrite lookup_insert. by case_decide.
Qed.






Lemma bind_rel {S A B} (R : S -> S -> Prop) (m : SE S A) (k : A -> SE S B) s :
  (forall x y z, R x y -> R y z -> R x z) ->
  (forall s, R s (fst (m s))) -> (forall a s, R s (fst (k a s))) ->
  R s (fst (bind m k s)).
Proof.
  intros Htr Hm Hk. unfold bind. specialize (Hm s).
  destruct (m s) as [s' [x|a]]; simpl in *; [done|]. eapply Htr; [done|apply Hk].
Qed.

(** Every step of the sampling loop sets a [QUEUE_SIZE] series of a
    sampled queue or [QUEUE_TASKS] series of a sampled queue. *)
Lemma queue_loop_rel (R : World -> World -> Prop) pairs kq kt w :
  (forall x, R x x) -> (forall x y z, R x y -> R y z -> R x z) ->
  (forall q x s, q ∈ map fst pairs -> R x (upd_QUEUES (<[q := s]>) id x)) ->
  (forall q x (l : list (JSON * Z)), q ∈ map fst pairs ->
     R x (upd_QUEUES id (fun g => fold_left (fun g tc => <[(q, py_str tc.1) := tc.2]> g) l g) x)) ->
  R w (fst (queue_loop pairs kq kt w)).
Proof.
  intros Hrf Htr. revert kq kt w.
  induction pairs as [|[q ch] pairs IH]; intros kq kt w Hs Ht; simpl; [done|].
  destruct ch as [|[size|] [|[|tasks] [|]]]; try apply Hrf.
  apply bind_rel; [done|intros s; apply Hs, list_elem_of_here|].
  intros _ s. destruct (get_tasks_stat tasks) as [x|items]; [apply Hrf|].
  apply bind_rel; [done|intros s'; rewrite task_loop_spec; apply Ht, list_elem_of_here|].
  intros kt' s'. apply IH.
  - intros q' x s'' Hq. apply Hs. by apply list_elem_of_further.
  - intros q' x l Hq. apply Ht. by apply list_elem_of_further.
Qed.




Example ex_queue_two_passes :
  let A := Json (JObj [("headers", JObj [("task", JStr "A")])]) in
  let w1 := fst (update_queues_metrics
                   (Some [("w1", [mkQueueDesc "q1"; mkQueueDesc "q2"])])
                   (<["q1" := [A; A; A]]> (<["q2" := []]> ∅)) (init_world 10)) in
  let w2 := fst (update_queues_metrics (Some [("w1", [mkQueueDesc "q1"])])
                   (<["q1" := []]> ∅) w1) in
  QUEUE_SIZE w1 !! "q1" = Some 3 /\ QUEUE_TASKS w1 !! ("q1", "A") = Some 3 /\
  QUEUE_SIZE w1 !! "q2" = Some 0 /\
  QUEUE_SIZE w2 !! "q1" = Some 0 /\ QUEUE_TASKS w2 !! ("q1", "A") = Some 0 /\
  QUEUE_SIZE w2 !! "q2" = Some 0.
Proof. vm_compute. repeat split; reflexivity. Qed.

(* ================================================================== *)
(** * Further properties of the exporter *)
Lemma try_rel {S A} (R : S -> S -> Prop) (m : SE S A) h (hd : SE S A) s :
  (forall x y z, R x y -> R y z -> R x z) ->
  (forall s, R s (fst (m s))) -> (forall s, R s (fst (hd s))) ->
  R s (fst (try_except m h hd s)).
Proof.
  intros Htr Hm Hh. unfold try_except. specialize (Hm s).
  destruct (m s) as [s' [x|a]]; simpl in *; [|done].
  destruct (h x); [eapply Htr; [done|apply Hh]|done].
Qed.

Lemma process_event_rel (R : World -> World -> Prop) e w :
  (forall x, R x x) -> (forall x y z, R x y -> R y z -> R x z) ->
  (forall x f, R x (upd_state_tasks f x)) ->
  (forall x d, R x (upd_LATENCY (fun l => app l [d]) x)) ->
  (forall x s, R x (upd_TASKS (gauge_inc s) x)) ->
  (forall x k, R x (upd_TASKS_NAME (gauge_inc k) x)) ->
  (forall x d, R x (upd_TASKS_RUNTIME (fun l => app l [d]) x)) ->
  (forall x, R x (collect_unready_world x)) ->
  R w (fst (process_event e w)).
Proof.
  intros Hrf Htr Hc Hl Ht Htn Hrt Hcol. unfold process_event.
  destruct (String.eqb (group_from (ev_type e)) "task"); [|apply Hrf]. cbv zeta.
  destruct (TASK_EVENT_TO_STATE _) as [st|]; [|apply Hrf].
  assert (Hoc : forall A (m : SE LRUCache A) x, R x (fst (on_cache m x))).
  { intros A m x. rewrite on_cache_run. apply Hc. }
  assert (Hu : forall A (k : string -> SE World A) x,
             (forall u x, R x (fst (k u x))) -> R x (fst (bind (evt_uuid e) k x))).
  { intros A k x Hk. apply bind_rel; [done| |done]. intros y. unfold evt_uuid.
    destruct (ev_uuid e); apply Hrf. }
  apply bind_rel; [done| |].
  - intros x. destruct (String.eqb st STARTED); [|apply Hrf].
    unfold observe_latency. apply bind_rel; [done| |].
    + intros y. apply try_rel; [done| |intros; apply Hrf].
      intros z. apply Hu. intros u z'. apply bind_rel; [done|apply Hoc|intros; apply Hrf].
    + intros [p|] y; [|apply Hrf].
      destruct (String.eqb (t_state p) RECEIVED); [|apply Hrf].
      destruct (ev_local_received e); [|apply Hrf].
      destruct (t_local_received p); [apply Hl|apply Hrf].
  - intros _ x. unfold collect_tasks. apply bind_rel; [done| |intros; apply Hcol].
    intros y. destruct (is_ready st); [|apply Hoc].
    unfold incr_ready_task. apply bind_rel; [done|intros z; apply Ht|].
    intros _ z. apply try_rel; [done| |intros; apply Hrf].
    intros z'. apply Hu. intros u z''. apply bind_rel; [done|apply Hoc|].
    intros ev z3. apply bind_rel; [done|intros z4; apply Htn|].
    intros _ z4. destruct (ev_runtime e); [apply Hrt|apply Hrf].
Qed.

Lemma dom_sub_lookup {K} `{Countable K} (g g' : gmap K Z) :
  (forall k, is_Some (g !! k) -> is_Some (g' !! k)) -> dom g ⊆ dom g'.
Proof. intros Hk k. rewrite !elem_of_dom. apply Hk. Qed.

Lemma kept_refl w : kept w w.
Proof. repeat split; try done; exists []; by rewrite app_nil_r. Qed.

Lemma kept_trans x y z : kept x y -> kept y z -> kept x z.
Proof.
  intros (H1 & H2 & H3 & H4 & H5 & H6) (G1 & G2 & G3 & G4 & G5 & G6).
  split; [by etrans|]. split; [by etrans|]. split; [by etrans|].
  split; [by etrans|]. split; by etrans.
Qed.

Lemma kept_gauges w w' :
  (forall k, is_Some (TASKS w !! k) -> is_Some (TASKS w' !! k)) ->
  (forall k, is_Some (TASKS_NAME w !! k) -> is_Some (TASKS_NAME w' !! k)) ->
  (forall k, is_Some (QUEUE_SIZE w !! k) -> is_Some (QUEUE_SIZE w' !! k)) ->
  (forall k, is_Some (QUEUE_TASKS w !! k) -> is_Some (QUEUE_TASKS w' !! k)) ->
  prefix (TASKS_RUNTIME w) (TASKS_RUNTIME w') -> prefix (LATENCY w) (LATENCY w') ->
  kept w w'.
Proof. intros. repeat split; try (by apply dom_sub_lookup); done. Qed.

Lemma gauge_inc_is_Some {K} `{Countable K} (k j : K) (g : gmap K Z) :
  is_Some (g !! j) -> is_Some (gauge_inc k g !! j).
Proof.
  intros Hj. unfold gauge_inc. rewrite lookup_insert.
  destruct (decide (k = j)); [done|done].
Qed.

Lemma kept_process_event w e : kept w (fst (process_event e w)).
Proof.
  apply process_event_rel; [apply kept_refl|apply kept_trans| | | | | |].
  6:{ intros x. apply kept_gauges; try (exists []; by rewrite app_nil_r).
      - intros s Hs. rewrite collect_unready_TASKS. by case_bool_decide.
      - intros k Hk. rewrite collect_unready_TASKS_NAME. by case_bool_decide.
      - done.
      - done. }
  all: intros; apply kept_gauges; simpl; try done; try (exists []; by rewrite app_nil_r);
    try (eexists; reflexivity); intros; by apply gauge_inc_is_Some.
Qed.

Lemma reset_metrics_is_Some {K} `{Countable K} (g : gmap K Z) kl k :
  is_Some (g !! k) -> is_Some (reset_metrics g kl !! k).
Proof.
  intros [v Hv]. rewrite reset_metrics_lookup, Hv.
  destruct kl; [case_bool_decide|]; done.
Qed.

Lemma kept_setup_metrics w i : kept w (fst (setup_metrics i w)).
Proof.
  pose proof (setup_metrics_frame i w) as (H1 & H2 & H3 & H4 & H5 & H6 & H7 & _).
  apply kept_gauges; rewrite ?H4, ?H5, ?H6, ?H7; try done; try (exists []; by rewrite app_nil_r).
  - intros s Hs. destruct i as [reg|].
    + unfold setup_metrics, bind, modify. cbn -[fold_left ALL_STATES].
      rewrite setup_states_TASKS. by case_bool_decide.
    + simpl. by apply reset_metrics_is_Some.
  - intros k Hk. destruct i as [reg|].
    + unfold setup_metrics, bind, modify. cbn -[fold_left ALL_STATES].
      rewrite setup_states_TASKS_NAME. by case_bool_decide.
    + simpl. by apply reset_metrics_is_Some.
Qed.

Lemma bind_proj {A B C} (p : World -> C) (m : SE World A) (k : A -> SE World B) w :
  (forall w, p (fst (m w)) = p w) -> (forall a w, p (fst (k a w)) = p w) ->
  p (fst (bind m k w)) = p w.
Proof.
  intros Hm Hk. apply (bind_rel (fun x y => p y = p x)); [|done|done].
  intros x y z -> ->. done.
Qed.

(** Every effect of a sampling pass is an update of the two queue
    gauges. *)
Lemma update_queues_metrics_rel (R : World -> World -> Prop) a redis w :
  (forall x, R x x) -> (forall x y z, R x y -> R y z -> R x z) ->
  (forall q x s, R x (upd_QUEUES (<[q := s]>) id x)) ->
  (forall q x (l : list (JSON * Z)),
     R x (upd_QUEUES id (fun g => fold_left (fun g tc => <[(q, py_str tc.1) := tc.2]> g) l g) x)) ->
  (forall x kq kt, R x (upd_QUEUES (fun g => reset_metrics g kq) (fun g => reset_metrics g kt) x)) ->
  R w (fst (update_queues_metrics a redis w)).
Proof.
  intros Hrf Htr Hs Ht Hr. unfold update_queues_metrics.
  apply bind_rel; [done|intros s; destruct a; apply Hrf|].
  intros names s. apply bind_rel; [done| |intros known s'; apply Hr].
  intros s'. apply queue_loop_rel; [done|done|intros; apply Hs|intros; apply Ht].
Qed.

Lemma update_queues_metrics_proj {C} (p : World -> C) a redis w :
  (forall fs ft x, p (upd_QUEUES fs ft x) = p x) ->
  p (fst (update_queues_metrics a redis w)) = p w.
Proof.
  intros Hp. apply (update_queues_metrics_rel (fun x y => p y = p x));
    [done|intros; congruence|intros; apply Hp..].
Qed.

Lemma kept_update_queues_metrics w a r : kept w (fst (update_queues_metrics a r w)).
Proof.
  apply update_queues_metrics_rel; [apply kept_refl|apply kept_trans| | |].
  - intros q x s. apply kept_gauges; simpl; try done.
    intros k Hk. rewrite lookup_insert. by case_decide.
  - intros q x l. apply kept_gauges; simpl; try done.
    intros k Hk. by apply fold_insert_labels_is_Some.
  - intros x kq kt. apply kept_gauges; simpl; try done;
      intros k Hk; by apply reset_metrics_is_Some.
Qed.

(** A series, once published, is never removed: the label sets of the
    four gauges only grow, and the runtime and latency observations are only
    appended to, whatever the event handler, the baseline reset, the worker
    ping or the queue sampler does. *)
Theorem series_never_removed w e i p a r :
  kept w (fst (process_event e w)) /\ kept w (fst (setup_metrics i w)) /\
  kept w (fst (update_workers_count p w)) /\ kept w (fst (update_queues_metrics a r w)).
Proof.
  split; [apply kept_process_event|]. split; [apply kept_setup_metrics|].
  split; [|apply kept_update_queues_metrics].
  destruct p; simpl; apply kept_gauges; try done; exists []; by rewrite app_nil_r.
Qed.

(** Each job writes only its own metrics: the event handler leaves the
    [workers] gauge and the queue gauges alone; the queue sampler leaves the
    registry, the task gauges, the runtime and latency observations and the
    [workers] gauge alone; the baseline reset leaves the registry, the
    observations and the queue gauges alone. *)
Theorem jobs_write_own_metrics w e a r i :
  let we := fst (process_event e w) in
  let wq := fst (update_queues_metrics a r w) in
  let ws := fst (setup_metrics i w) in
  (WORKERS we = WORKERS w /\ QUEUE_SIZE we = QUEUE_SIZE w /\ QUEUE_TASKS we = QUEUE_TASKS w) /\
  (mon wq = mon w /\ TASKS wq = TASKS w /\ TASKS_NAME wq = TASKS_NAME w /\
   TASKS_RUNTIME wq = TASKS_RUNTIME w /\ LATENCY wq = LATENCY w /\ WORKERS wq = WORKERS w) /\
  (mon ws = mon w /\ TASKS_RUNTIME ws = TASKS_RUNTIME w /\ LATENCY ws = LATENCY w /\
   QUEUE_SIZE ws = QUEUE_SIZE w /\ QUEUE_TASKS ws = QUEUE_TASKS w).
Proof.
  intros we wq ws. split; [|split].
  - assert (H : (WORKERS we, QUEUE_SIZE we, QUEUE_TASKS we) = (WORKERS w, QUEUE_SIZE w, QUEUE_TASKS w)).
    { apply (process_event_rel (fun x y => (WORKERS y, QUEUE_SIZE y, QUEUE_TASKS y) =
                                           (WORKERS x, QUEUE_SIZE x, QUEUE_TASKS x)));
        intros; try reflexivity. congruence. }
    by injection H.
  - unfold wq. repeat split;
      match goal with |- ?p _ = _ =>
        exact (update_queues_metrics_proj p a r w (fun _ _ _ => eq_refl)) end.
  - pose proof (setup_metrics_frame i w) as (H1 & H2 & H3 & H4 & H5 & H6 & H7 & _).
    unfold ws, mon. rewrite H1, H2, H3. done.
Qed.

(** Events outside the [task] group (worker heartbeats and the like) have
    no effect: a capture gives the same state and outcome as the capture of
    its task events alone. *)
Theorem capture_ignores_other_groups es w :
  capture es w =
  capture (List.filter (fun e => String.eqb (group_from (ev_type e)) "task") es) w.
Proof.
  revert w. induction es as [|e es IH]; intros w; simpl; [done|].
  destruct (String.eqb (group_from (ev_type e)) "task") eqn:Hg; simpl.
  - unfold bind. destruct (process_event e w) as [w1 [x|[]]]; [done|]. apply IH.
  - unfold bind at 1, process_event. rewrite Hg. apply IH.
Qed.

(** A [task-*] event whose subject is not in [TASK_EVENT_TO_STATE] (say
    [task-progress]) raises [KeyError] before touching anything, and the
    exception ends the capture of the events after it. *)
Theorem unknown_task_event_aborts e es w :
  group_from (ev_type e) = "task" ->
  TASK_EVENT_TO_STATE (py_slice_from 5 (ev_type e)) = None ->
  process_event e w = (w, inl KeyError) /\ capture (e :: es) w = (w, inl KeyError).
Proof.
  intros Hg Hm. assert (H : process_event e w = (w, inl KeyError)).
  { unfold process_event. rewrite Hg, String.eqb_refl. cbv zeta. by rewrite Hm. }
  split; [done|]. simpl. unfold bind. by rewrite H.
Qed.

Lemma unknown_task_event_aborts_witness :
  let e := mkEvent "task-progress" (Some "a") (Some "w1") (Some 1) (Some 1) (Some 0) None None in
  process_event e (init_world 10) = (init_world 10, inl KeyError) /\
  capture [e; ev "task-received" "b" 2 None None] (init_world 10) = (init_world 10, inl KeyError).
Proof. intros e. apply unknown_task_event_aborts; reflexivity. Defined.

Lemma process_event_task_ok e w w' :
  group_from (ev_type e) = "task" -> process_event e w = (w', inr tt) ->
  exists w0, w' = collect_unready_world w0.
Proof.
  intros Hg. unfold process_event. rewrite Hg, String.eqb_refl. cbv zeta.
  destruct (TASK_EVENT_TO_STATE _) as [st|]; [|discriminate].
  unfold bind at 1. destruct ((if String.eqb st STARTED then observe_latency e else ret tt) w)
    as [w1 [x|a]]; [discriminate|].
  unfold collect_tasks, bind. destruct ((if is_ready st then incr_ready_task e st
                                         else on_cache (state_event e)) w1) as [w2 [x|b]];
    [discriminate|].
  unfold collect_unready_tasks, modify. intros [= <-]. by exists w2.
Qed.

(** After a task event handled without an exception, the state of every
    tracked record is a known state, and every known state (and every known
    state-name pair) holds the number of tracked records in that state (with
    that name). *)
Theorem task_event_gauges_match_registry e w w' :
  group_from (ev_type e) = "task" -> process_event e w = (w', inr tt) ->
  (forall t, t ∈ records w' -> t_state t ∈ known_states w') /\
  (forall s, s ∈ known_states w' ->
     TASKS w' !! s = Some (counter (map t_state (records w')) s)) /\
  (forall s n, (s, n) ∈ known_states_names w' ->
     TASKS_NAME w' !! (s, n) = Some (counter (state_name_pairs (records w')) (s, n))).
Proof.
  intros Hg He. destruct (process_event_task_ok e w w' Hg He) as [w0 ->].
  split; [|split].
  - intros t Ht. rewrite collect_unready_known_states, elem_of_union, elem_of_list_to_set.
    right. apply list_elem_of_fmap. by exists t.
  - intros s Hs. by apply collect_TASKS_known.
  - intros s n Hs. rewrite collect_unready_TASKS_NAME, bool_decide_true; done.
Qed.

Lemma task_event_gauges_match_registry_witness :
  let e := ev "task-received" "a" 1 (Some "add") None in
  let w' := fst (process_event e (init_world 10)) in
  group_from (ev_type e) = "task" /\ process_event e (init_world 10) = (w', inr tt) /\
  ((forall t, t ∈ records w' -> t_state t ∈ known_states w') /\
   (forall s, s ∈ known_states w' ->
      TASKS w' !! s = Some (counter (map t_state (records w')) s)) /\
   (forall s n, (s, n) ∈ known_states_names w' ->
      TASKS_NAME w' !! (s, n) = Some (counter (state_name_pairs (records w')) (s, n)))).
Proof.
  intros e w'. assert (Hg : group_from (ev_type e) = "task") by reflexivity.
  assert (He : process_event e (init_world 10) = (w', inr tt)) by (vm_compute; reflexivity).
  split; [exact Hg|]. split; [exact He|].
  exact (task_event_gauges_match_registry e (init_world 10) w' Hg He).
Defined.

Lemma World_ext w1 w2 :
  state_tasks w1 = state_tasks w2 -> known_states w1 = known_states w2 ->
  known_states_names w1 = known_states_names w2 -> TASKS w1 = TASKS w2 ->
  TASKS_NAME w1 = TASKS_NAME w2 -> TASKS_RUNTIME w1 = TASKS_RUNTIME w2 ->
  WORKERS w1 = WORKERS w2 -> LATENCY w1 = LATENCY w2 ->
  QUEUE_SIZE w1 = QUEUE_SIZE w2 -> QUEUE_TASKS w1 = QUEUE_TASKS w2 -> w1 = w2.
Proof. destruct w1, w2; simpl; intros; subst; reflexivity. Qed.

(** The aggregation pass [_collect_unready_tasks] is idempotent: running
    it twice leaves the same state as running it once. *)
Theorem collect_unready_idempotent w :
  collect_unready_world (collect_unready_world w) = collect_unready_world w.
Proof.
  assert (Hks : known_states (collect_unready_world (collect_unready_world w)) =
                known_states (collect_unready_world w)).
  { rewrite !collect_unready_known_states. unfold records. simpl. set_solver. }
  assert (Hkn : known_states_names (collect_unready_world (collect_unready_world w)) =
                known_states_names (collect_unready_world w)).
  { rewrite !collect_unready_known_states_names. unfold records. simpl. set_solver. }
  apply World_ext; try reflexivity; try done.
  - apply map_eq. intros s. rewrite (collect_unready_TASKS (collect_unready_world w) s), Hks.
    case_bool_decide as Hs; [|done]. symmetry. by apply collect_TASKS_known.
  - apply map_eq. intros k. rewrite (collect_unready_TASKS_NAME (collect_unready_world w) k), Hkn.
    case_bool_decide as Hs; [|done]. symmetry.
    by rewrite collect_unready_TASKS_NAME, bool_decide_true.
Qed.

(** In every reachable state the registry has distinct ids, holds at most
    [max_tasks_in_memory] records when that limit is positive, and tracks
    only unready records, each carrying [local_received] unless it is a bare
    [PENDING] record; every known state and every known state-name pair is
    unready. *)
Theorem registry_invariant w :
  reachable w ->
  NoDup (keys w) /\
  (0 < limit (state_tasks w) -> Z.of_nat (length (keys w)) <= limit (state_tasks w)) /\
  (forall t, t ∈ records w ->
     is_ready (t_state t) = false /\ (t_local_received t <> None \/ t_state t = PENDING)) /\
  (forall s, s ∈ known_states w -> is_ready s = false) /\
  (forall s n, (s, n) ∈ known_states_names w -> is_ready s = false).
Proof.
  intros Hr. pose proof (reachable_inv w Hr) as Hi.
  pose proof Hi as ((Hnd & Hpos & _) & _ & Hks & Hkn).
  split; [done|]. split.
  - unfold keys. rewrite length_map. done.
  - split; [|done]. intros t Ht. by apply (records_ok w t).
Qed.

Lemma registry_invariant_witness :
  let step w e := fst (process_event e w) in
  let w := step (step (step (init_world 2) (ev "task-received" "a" 1 (Some "add") None))
                      (ev "task-received" "b" 2 None None))
                (ev "task-received" "c" 3 None None) in
  reachable w /\
  (NoDup (keys w) /\
   (0 < limit (state_tasks w) -> Z.of_nat (length (keys w)) <= limit (state_tasks w)) /\
   (forall t, t ∈ records w ->
     is_ready (t_state t) = false /\ (t_local_received t <> None \/ t_state t = PENDING)) /\
   (forall s, s ∈ known_states w -> is_ready s = false) /\
   (forall s n, (s, n) ∈ known_states_names w -> is_ready s = false)).
Proof.
  intros step w.
  assert (Hr : reachable w) by (apply reach_event, reach_event, reach_event, reach_init).
  split; [exact Hr|]. exact (registry_invariant w Hr).
Defined.

Lemma sim_bind {A B} (m : SE World A) (k : A -> SE World B) :
  mon_sim m -> (forall a, mon_sim (k a)) -> mon_sim (bind m k).
Proof.
  intros Hm Hk w1 w2 E. unfold bind. destruct (Hm w1 w2 E) as [E1 R1].
  destruct (m w1) as [x1 r1], (m w2) as [x2 r2]. simpl in *. subst r2.
  destruct r1 as [x|a]; [done|]. by apply Hk.
Qed.

Lemma sim_try {A} (m : SE World A) h (hd : SE World A) :
  mon_sim m -> mon_sim hd -> mon_sim (try_except m h hd).
Proof.
  intros Hm Hh w1 w2 E. unfold try_except. destruct (Hm w1 w2 E) as [E1 R1].
  destruct (m w1) as [x1 r1], (m w2) as [x2 r2]. simpl in *. subst r2.
  destruct r1 as [x|a]; [|done]. destruct (h x); [by apply Hh|done].
Qed.

Lemma sim_ret {A} (a : A) : mon_sim (ret a).
Proof. intros w1 w2 E. done. Qed.

Lemma sim_raise {A} x : mon_sim (@raise World A x).
Proof. intros w1 w2 E. done. Qed.

Lemma sim_modify f : (forall w, mon (f w) = mon w) -> mon_sim (modify f).
Proof. intros Hf w1 w2 E. simpl. by rewrite !Hf. Qed.

Lemma sim_on_cache {A} (m : SE LRUCache A) : mon_sim (on_cache m).
Proof.
  intros w1 w2 E. rewrite !on_cache_run. unfold mon in *. injection E as E1 E2 E3.
  simpl. by rewrite E1, E2, E3.
Qed.

Lemma sim_evt_uuid e : mon_sim (evt_uuid e).
Proof. unfold evt_uuid. destruct (ev_uuid e); [apply sim_ret|apply sim_raise]. Qed.

Lemma sim_process_event e : mon_sim (process_event e).
Proof.
  unfold process_event. destruct (String.eqb _ _); [|apply sim_ret]. cbv zeta.
  destruct (TASK_EVENT_TO_STATE _) as [st|]; [|apply sim_raise].
  apply sim_bind.
  - destruct (String.eqb st STARTED); [|apply sim_ret].
    unfold observe_latency. apply sim_bind.
    + apply sim_try; [|apply sim_ret]. apply sim_bind; [apply sim_evt_uuid|].
      intros u. apply sim_bind; [apply sim_on_cache|intros; apply sim_ret].
    + intros [p|]; [|apply sim_ret]. repeat case_match; first [apply sim_ret|apply sim_raise|by apply sim_modify].
  - intros _. unfold collect_tasks. apply sim_bind.
    + destruct (is_ready st); [|apply sim_on_cache].
      unfold incr_ready_task. apply sim_bind; [by apply sim_modify|]. intros _.
      apply sim_try; [|apply sim_ret]. apply sim_bind; [apply sim_evt_uuid|].
      intros u. apply sim_bind; [apply sim_on_cache|]. intros v.
      apply sim_bind; [by apply sim_modify|]. intros _.
      destruct (ev_runtime e); [by apply sim_modify|apply sim_ret].
    + intros _ w1 w2 E. unfold collect_unready_tasks, modify, mon in *. simpl.
      injection E as E1 E2 E3. unfold records. by rewrite E1, E2, E3.
Qed.

Lemma sim_capture es : mon_sim (capture es).
Proof.
  induction es as [|e es IH]; simpl; [apply sim_ret|].
  apply sim_bind; [apply sim_process_event|done].
Qed.

Lemma setup_metrics_ok i w : snd (setup_metrics i w) = inr tt.
Proof. by destruct i. Qed.

(** One attempt of the [_monitor] loop ends with the [workers] gauge at 0
    (the closing [setup_metrics] call), and its effect on the registry and
    the known sets is the one of the capture alone (none when the
    connection fails): the baseline resets never touch them. *)
Theorem monitor_attempt_registry a w :
  WORKERS (monitor_attempt a w) = 0 /\
  mon (monitor_attempt a w) =
    match a with
    | ConnectFailed _ => mon w
    | Connected _ es _ => mon (fst (capture es w))
    end.
Proof.
  destruct a as [ia|ib es ia]; simpl.
  - split; [apply (setup_metrics_frame ia w)|apply setup_metrics_mon].
  - split; [apply setup_metrics_frame|]. rewrite setup_metrics_mon.
    unfold bind. pose proof (setup_metrics_ok ib w) as Hok.
    destruct (setup_metrics ib w) as [ws r] eqn:Es. simpl in Hok. subst r.
    apply (sim_capture es ws w).
    change ws with (fst (ws, @inr exn unit tt)). rewrite <- Es. apply setup_metrics_mon.
Qed.

Lemma upd_WORKERS_twice f g w : upd_WORKERS f (upd_WORKERS g w) = upd_WORKERS (fun x => f (g x)) w.
Proof. reflexivity. Qed.

(** A run of the worker ping loop leaves in the [workers] gauge the size of
    the last successful reply, failed pings afterwards changing nothing;
    failed pings alone leave the state unchanged, and the loop changes no
    other part of the state. *)
Theorem workers_run_last_reply pre r k w :
  WORKERS (workers_run (pre ++ Some r :: repeat None k) w) = Z.of_nat (length r) /\
  workers_run (repeat None k) w = w /\
  (forall pings, workers_run pings w = upd_WORKERS (fun _ => WORKERS (workers_run pings w)) w).
Proof.
  assert (Hnone : forall k w, workers_run (repeat None k) w = w).
  { induction k0 as [|k0 IH]; intros w0; [done|]. apply IH. }
  split; [|split; [apply Hnone|]].
  - unfold workers_run. rewrite fold_left_app. simpl. fold (workers_run (repeat None k)
      (upd_WORKERS (fun _ => Z.of_nat (length r))
         (fold_left (fun w p => fst (update_workers_count p w)) pre w))).
    rewrite Hnone. reflexivity.
  - intros pings. revert w. induction pings as [|p pings IH] using rev_ind; intros w0.
    + simpl. by destruct w0.
    + unfold workers_run. rewrite fold_left_app. simpl. fold (workers_run pings w0).
      rewrite (IH w0). destruct p; simpl; [reflexivity|]. by rewrite <- IH.
Qed.

(** [_reset_metrics] keeps the label set of the gauge, leaves the series
    whose labels are known at their value, sets every other series to 0
    (all of them without [known_labels]), and resetting twice is resetting
    once. *)
Theorem reset_metrics_spec {K} `{Countable K} (g : gmap K Z) kl :
  dom (reset_metrics g kl) = dom g /\
  (forall k v, g !! k = Some v ->
     reset_metrics g kl !! k =
     Some (match kl with
           | Some known => if bool_decide (k ∈ known) then v else 0
           | None => 0
           end)) /\
  reset_metrics (reset_metrics g kl) kl = reset_metrics g kl.
Proof.
  split; [|split].
  - apply leibniz_equiv. intros k. rewrite !elem_of_dom, reset_metrics_lookup.
    destruct (g !! k); [|done]. destruct kl; [case_bool_decide|]; done.
  - intros k v Hk. rewrite reset_metrics_lookup, Hk. destruct kl; [case_bool_decide|]; done.
  - apply map_eq. intros k. rewrite !reset_metrics_lookup.
    destruct (g !! k); [|done]. destruct kl; [case_bool_decide|]; done.
Qed.

Lemma py_key_eq_str k t : py_key_eq k (JStr t) = true <-> k = JStr t.
Proof.
  destruct k as [| | |s| |]; simpl; try (split; intros H; discriminate H).
  rewrite String.eqb_eq. split; [by intros ->|by intros [= ->]].
Qed.

Lemma py_key_eq_str_compat k' k t :
  py_key_eq k' k = true -> py_key_eq k' (JStr t) = py_key_eq k (JStr t).
Proof.
  intros H. destruct (py_key_eq k (JStr t)) eqn:E2.
  - apply py_key_eq_str in E2 as ->. exact H.
  - destruct (py_key_eq k' (JStr t)) eqn:E1; [|done]. apply py_key_eq_str in E1 as ->.
    destruct k; simpl in H; try discriminate. apply String.eqb_eq in H as ->.
    simpl in E2. by rewrite String.eqb_refl in E2.
Qed.

Lemma py_lookup_incr k acc t :
  py_lookup (JStr t) (count_incr k acc) =
  if py_key_eq k (JStr t)
  then Some (match py_lookup (JStr t) acc with Some n => n + 1 | None => 1 end)
  else py_lookup (JStr t) acc.
Proof.
  induction acc as [|[k' n] acc IH]; simpl.
  - by destruct (py_key_eq k (JStr t)).
  - destruct (py_key_eq k' k) eqn:Ek; simpl.
    + rewrite (py_key_eq_str_compat k' k t Ek). by destruct (py_key_eq k (JStr t)).
    + rewrite IH. destruct (py_key_eq k' (JStr t)) eqn:E1; [|done].
      destruct (py_key_eq k (JStr t)) eqn:E2; [|done].
      apply py_key_eq_str in E1 as ->. apply py_key_eq_str in E2 as ->.
      simpl in Ek. by rewrite String.eqb_refl in Ek.
Qed.

Lemma tasks_stat_loop_count acc tasks items t :
  tasks_stat_loop acc tasks = inr items ->
  py_lookup (JStr t) items =
  match py_lookup (JStr t) acc with
  | Some n => Some (n + Z.of_nat (length (List.filter (carries_task t) tasks)))
  | None => if Z.of_nat (length (List.filter (carries_task t) tasks)) =? 0 then None
            else Some (Z.of_nat (length (List.filter (carries_task t) tasks)))
  end.
Proof.
  revert acc. induction tasks as [|p tasks IH]; intros acc H; simpl in H |- *.
  - injection H as ->. destruct (py_lookup (JStr t) items); [f_equal; lia|done].
  - destruct (tasks_stat_step acc p) as [x|acc'] eqn:Es; [discriminate|].
    rewrite (IH acc' H). unfold tasks_stat_step in Es.
    destruct p as [| |v]; [discriminate|injection Es as <-; reflexivity|].
    unfold carries_task. destruct (task_field v) as [x|[k|]]; [discriminate| |].
    2:{ injection Es as <-. reflexivity. }
    destruct (hashable k); [|discriminate]. injection Es as <-.
    rewrite py_lookup_incr.
    destruct (py_key_eq k (JStr t)) eqn:Ek.
    + apply py_key_eq_str in Ek as ->. rewrite String.eqb_refl. simpl (length _).
      destruct (py_lookup (JStr t) acc); zbool; f_equal; lia.
    + assert (Hc : match k with JStr s => String.eqb s t | _ => false end = false).
      { destruct k; done. }
      rewrite Hc. reflexivity.
Qed.

(** [get_tasks_stat] counts, for a [str] task name [t], the payloads whose
    [headers.task] is the [str] [t]: when it raises nothing, the entry of
    key [t] in its result is that count, and there is no entry when the
    count is 0 (payloads that are not JSON, and messages without the
    header, are skipped). *)
Theorem get_tasks_stat_count tasks items t :
  get_tasks_stat tasks = inr items ->
  py_lookup (JStr t) items =
    (let c := Z.of_nat (length (List.filter (carries_task t) tasks)) in
     if c =? 0 then None else Some c).
Proof. intros H. apply (tasks_stat_loop_count [] tasks items t H). Qed.

Lemma get_tasks_stat_count_witness :
  let A := Json (JObj [("headers", JObj [("task", JStr "A")])]) in
  get_tasks_stat [A; NotJson; Json (JObj []); A] = inr [(JStr "A", 2)] /\
  py_lookup (JStr "A") [(JStr "A", 2)] =
    (let c := Z.of_nat (length (List.filter (carries_task "A") [A; NotJson; Json (JObj []); A])) in
     if c =? 0 then None else Some c).
Proof.
  intros A. split; [vm_compute; reflexivity|].
  apply (get_tasks_stat_count [A; NotJson; Json (JObj []); A]). vm_compute. reflexivity.
Defined.

Lemma chunks_cons {A} (n : nat) (m : nat) (l : list A) :
  map (fun i => firstn n (skipn (i * n) l)) (seq 0 (S m)) =
  firstn n l :: map (fun i => firstn n (skipn (i * n) (skipn n l))) (seq 0 m).
Proof.
  simpl. f_equal. rewrite <- seq_shift, List.map_map. apply map_ext. intros i.
  rewrite skipn_skipn. f_equal. f_equal. lia.
Qed.

Lemma firstn_add_split {A} (n p : nat) (l : list A) :
  firstn (n + p) l = firstn n l ++ firstn p (skipn n l).
Proof.
  revert l. induction n as [|n IH]; intros l; [done|].
  destruct l as [|x l]; simpl; [by rewrite firstn_nil|]. by rewrite IH.
Qed.

Lemma chunks_concat {A} (n : nat) (m : nat) (l : list A) :
  concat (map (fun i => firstn n (skipn (i * n) l)) (seq 0 m)) = firstn (m * n) l.
Proof.
  revert l. induction m as [|m IH]; intros l; [done|].
  rewrite chunks_cons. simpl. rewrite IH. by rewrite firstn_add_split.
Qed.

Lemma ceil_div_bounds (len k : nat) :
  (0 < k)%nat ->
  (len <= ((len + k - 1) / k) * k)%nat /\
  (forall i, (i < (len + k - 1) / k)%nat -> (i * k < len)%nat).
Proof.
  intros Hk. pose proof (Nat.div_mod (len + k - 1) k ltac:(lia)) as Hd.
  pose proof (Nat.mod_upper_bound (len + k - 1) k ltac:(lia)) as Hm.
  set (q := ((len + k - 1) / k)%nat) in *. set (r := ((len + k - 1) mod k)%nat) in *.
  split; [nia|]. intros i Hi. nia.
Qed.

(** [chunks(l, n)] with [n > 0] splits [l] into [ceil(len(l)/n)]
    consecutive slices, all of length [n] except the last one, which is
    non-empty; together they give back [l]. With [n = 0], [range] raises
    [ValueError]. *)
Theorem chunks_spec {A} (l : list A) (n : Z) :
  0 < n ->
  chunks l 0 = inl ValueError /\
  exists cs, chunks l n = inr cs /\ concat cs = l /\
    Z.of_nat (length cs) = (Z.of_nat (length l) + n - 1) / n /\
    (forall i c, nth_error cs i = Some c ->
       (0 < length c)%nat /\ Z.of_nat (length c) <= n /\
       (S i < length cs -> Z.of_nat (length c) = n)%nat).
Proof.
  intros Hn. split; [done|].
  set (k := Z.to_nat n). assert (Hk : (0 < k)%nat) by lia.
  set (m := ((length l + k - 1) / k)%nat).
  exists (map (fun i => firstn k (skipn (i * k) l)) (seq 0 m)).
  unfold chunks. rewrite (proj2 (Z.eqb_neq n 0)) by lia.
  replace (n <? 0) with false by (symmetry; apply Z.ltb_ge; lia).
  split; [done|].
  destruct (ceil_div_bounds (length l) k Hk) as [Hcov Hin]. fold m in Hcov, Hin.
  split; [|split].
  - rewrite chunks_concat. by apply firstn_all2.
  - rewrite length_map, length_seq. unfold m.
    rewrite Nat2Z.inj_div. f_equal; [|lia].
    rewrite Nat2Z.inj_sub by lia. rewrite Nat2Z.inj_add. lia.
  - intros i c Hc. rewrite nth_error_map in Hc.
    rewrite nth_error_seq in Hc.
    destruct (Nat.ltb_spec i m) as [Hjm|]; [|discriminate]. simpl in Hc.
    injection Hc as <-.
    rewrite length_map, length_seq in *.
    rewrite length_firstn, length_skipn. pose proof (Hin i Hjm) as Hi.
    split; [lia|]. split; [lia|]. intros Hs.
    pose proof (Hin (S i) ltac:(lia)) as Hi'. simpl in Hi'. lia.
Qed.

Lemma chunks_spec_witness :
  0 < 2 /\
  (chunks [1; 2; 3; 4; 5]%Z 0 = inl ValueError /\
   exists cs, chunks [1; 2; 3; 4; 5]%Z 2 = inr cs /\ concat cs = [1; 2; 3; 4; 5]%Z /\
     Z.of_nat (length cs) = (Z.of_nat (length [1; 2; 3; 4; 5]%Z) + 2 - 1) / 2 /\
     (forall i c, nth_error cs i = Some c ->
        (0 < length c)%nat /\ Z.of_nat (length c) <= 2 /\
        (S i < length cs -> Z.of_nat (length c) = 2%Z)%nat)).
Proof. split; [lia|]. apply chunks_spec. lia. Defined.

(** [chunks(l, 2)], used to pair the pipelined [llen] and [lrange]
    results, is the pairing [chunks2] of the queue sampler. *)
Theorem chunks_two_pairs (l : list PipeRes) : chunks l 2 = inr (chunks2 l).
Proof.
  unfold chunks. simpl. f_equal.
  assert (H : forall n (l : list PipeRes), (length l <= n)%nat ->
            map (fun i => firstn 2 (skipn (i * 2) l)) (seq 0 ((length l + 2 - 1) / 2)) =
            chunks2 l).
  { induction n as [|n IH]; intros l0 Hl.
    - destruct l0; [done|simpl in Hl; lia].
    - destruct l0 as [|a [|b r]]; [done|done|].
      replace ((length (a :: b :: r) + 2 - 1) / 2)%nat with (S ((length r + 2 - 1) / 2))%nat.
      2:{ change (length (a :: b :: r)) with (S (S (length r))).
            replace (S (S (length r)) + 2 - 1)%nat with ((length r + 2 - 1) + 1 * 2)%nat
            by lia. rewrite Nat.div_add by lia. lia. }
      rewrite chunks_cons. simpl. f_equal. apply IH. simpl in Hl. lia. }
  by apply (H (length l)).
Qed.


Lemma no_colon_cons c r : no_colon (String c r) <-> c <> ":"%char /\ no_colon r.
Proof.
  unfold no_colon. simpl. rewrite elem_of_cons. split.
  - intros H. split; [intros Heq; subst c; apply H; by left|intros H'; apply H; by right].
  - intros [H1 H2] [Heq|H']; [subst c; done|done].
Qed.

Lemma split_colon_no_colon p : no_colon p -> split_colon p = [p].
Proof.
  induction p as [|c r IH]; [done|]. intros [Hc Hr]%no_colon_cons. simpl.
  rewrite IH by done. destruct (Ascii.eqb_spec c ":"%char); [done|reflexivity].
Qed.

Lemma split_colon_app h p :
  no_colon h -> split_colon (h ++ String ":" p)%string = h :: split_colon p.
Proof.
  induction h as [|c r IH]; intros Hh.
  - reflexivity.
  - apply no_colon_cons in Hh as [Hc Hr]. simpl. rewrite IH by done.
    destruct (Ascii.eqb_spec c ":"%char); [done|reflexivity].
Qed.

Lemma split_colon_ne s : split_colon s <> [].
Proof.
  destruct s as [|c r]; simpl; [done|].
  destruct (Ascii.eqb c ":"%char); [done|]. by destruct (split_colon r).
Qed.

Lemma split_colon_inv s x xs :
  split_colon s = x :: xs ->
  no_colon x /\ ((xs = [] /\ s = x) \/
                 exists s', s = (x ++ String ":" s')%string /\ split_colon s' = xs).
Proof.
  revert x xs. induction s as [|c r IH]; intros x xs Hs; simpl in Hs.
  - injection Hs as <- <-. split; [unfold no_colon; simpl; apply not_elem_of_nil|by left].
  - revert Hs. destruct (Ascii.eqb_spec c ":"%char) as [->|Hc]; intros Hs.
    + injection Hs as <- <-. split; [unfold no_colon; simpl; apply not_elem_of_nil|].
      right. by exists r.
    + destruct (split_colon r) as [|y ys] eqn:E; [by apply split_colon_ne in E|].
      injection Hs as <- <-. destruct (IH y ys eq_refl) as [Hy Hor].
      split; [by apply no_colon_cons|].
      destruct Hor as [[-> ->]|[s' [-> Hs']]]; [by left|right].
      by exists s'.
Qed.

(** [start_httpd] unpacks [addr.split(':')] without error exactly when
    [addr] is [host:port] with one colon: [host] and [port] are then the
    parts before and after it. Any other number of colons raises
    [ValueError]. *)
Theorem start_httpd_addr_split addr h p :
  start_httpd_addr addr = inr (h, p) <->
  addr = (h ++ String ":" p)%string /\ no_colon h /\ no_colon p.
Proof.
  split.
  - unfold start_httpd_addr. destruct (split_colon addr) as [|x [|y [|z zs]]] eqn:E;
      try discriminate.
    intros [= <- <-]. apply split_colon_inv in E as [Hx [[? _]|[s' [-> Hs']]]];
      [discriminate|].
    apply split_colon_inv in Hs' as [Hy [[_ ->]|[s'' [_ Hs'']]]]; [done|by apply split_colon_ne in Hs''].
  - intros (-> & Hh & Hp). unfold start_httpd_addr.
    rewrite split_colon_app, split_colon_no_colon by done. reflexivity.
Qed.

(** An unready event with every field for a tracked task, handled in a
    reachable state with a positive limit, keeps the record: its new
    state is the event's state, unless the record's current state has a
    lower precedence (neither being [RETRY]), in which case the late event
    leaves the state as it is. The event's task name, when it has one,
    replaces the stored one. *)
Theorem unready_event_precedence w e st u h ts lr cl v :
  reachable w -> 0 < limit (state_tasks w) ->
  group_from (ev_type e) = "task" ->
  TASK_EVENT_TO_STATE (py_slice_from 5 (ev_type e)) = Some st ->
  is_ready st = false ->
  ev_uuid e = Some u -> ev_hostname e = Some h -> ev_timestamp e = Some ts ->
  ev_local_received e = Some lr -> ev_clock e = Some cl ->
  od_lookup u (data (state_tasks w)) = Some v ->
  exists v',
    od_lookup u (data (state_tasks (fst (process_event e w)))) = Some v' /\
    t_state v' = (if (negb (String.eqb st RETRY) && negb (String.eqb (t_state v) RETRY)
                      && (precedence (t_state v) <? precedence st))%bool
                  then t_state v else st) /\
    t_name v' = match ev_name e with Some n => Some n | None => t_name v end.
Proof.
  intros Hre Hlim Hg Hm Hr Hu Hh Hts Hlr Hcl Hl.
  destruct (process_event_unready w e st u h ts lr cl (reachable_inv w Hre) Hlim Hg Hm Hr
              Hu Hh Hts Hlr Hcl) as (w1 & E & _).
  rewrite E, Hl. cbn [fst state_tasks collect_unready_world upd_state_tasks data].
  unfold collect_unready_world. cbn [state_tasks data].
  eexists. split.
  { destruct (String.eqb st STARTED); [apply od_lookup_refreshed|].
    rewrite od_lookup_set, String.eqb_refl. reflexivity. }
  unfold task_event. rewrite (task_subject _ st Hg Hm), Hm.
  destruct (negb (String.eqb st RETRY) && negb (String.eqb (t_state v) RETRY)
            && (precedence (t_state v) <? precedence st))%bool; [|done].
  unfold merge_rules. destruct (String.eqb st RECEIVED); done.
Qed.

Lemma unready_event_precedence_witness :
  let w := fst (process_event (ev "task-started" "a" 1 None None) (init_world 10)) in
  let e := ev "task-received" "a" 2 (Some "add") None in
  exists v',
    od_lookup "a" (data (state_tasks (fst (process_event e w)))) = Some v' /\
    t_state v' = (if (negb (String.eqb RECEIVED RETRY) && negb (String.eqb STARTED RETRY)
                      && (precedence STARTED <? precedence RECEIVED))%bool
                  then STARTED else RECEIVED) /\
    t_name v' = match ev_name e with Some n => Some n | None => @None string end.
Proof.
  intros w e.
  apply (unready_event_precedence w e RECEIVED "a" "w1" 2 2 0 (mkTask None STARTED (Some 1)));
    [apply reach_event, reach_init|vm_compute; congruence|reflexivity..].
Defined.

Lemma observe_latency_TASKS_NAME e w :
  cache_ok (state_tasks w) -> TASKS_NAME (fst (observe_latency e w)) = TASKS_NAME w.
Proof.
  intros Hok. destruct (ev_uuid e) as [u|] eqn:Hu; [|by rewrite observe_latency_no_uuid].
  rewrite (observe_latency_spec e w u Hok Hu). repeat case_match; done.
Qed.

Lemma process_event_ready_name_mono w e s n :
  inv w -> is_ready s = true ->
  inv (fst (process_event e w)) /\
  gval (TASKS_NAME w) (s, n) <= gval (TASKS_NAME (fst (process_event e w))) (s, n).
Proof.
  intros Hi Hs. unfold process_event.
  destruct (String.eqb_spec (group_from (ev_type e)) "task") as [Hg|]; [|split; simpl; [done|lia]].
  destruct (TASK_EVENT_TO_STATE (py_slice_from 5 (ev_type e))) as [st|] eqn:Hm;
    [|split; simpl; [done|lia]].
  set (P := fun w' => inv w' /\ gval (TASKS_NAME w) (s, n) <= gval (TASKS_NAME w') (s, n)).
  apply (bind_pres P); [split; [done|lia]| |].
  { intros w1 [Hi1 Hle]. destruct (String.eqb st STARTED); [|done].
    split; [by apply inv_observe_latency|]. rewrite observe_latency_TASKS_NAME; [done|apply Hi1]. }
  intros _ w1 [Hi1 Hle]. unfold collect_tasks.
  apply (bind_pres P); [done| |].
  - intros w2 [Hi2 Hle2]. destruct (is_ready st) eqn:Hr.
    + split; [by apply inv_incr_ready_task|].
      rewrite (incr_ready_task_spec e st w2 (proj1 Hi2)).
      repeat case_match; simpl in *; try lia.
      all: pose proof (gval_gauge_inc_le (st, label_of_name (t_name t)) (s, n) (TASKS_NAME w2));
        lia.
    + split; [|by rewrite on_cache_run].
      apply (inv_state_event w2 e st Hi2 Hr). by rewrite (task_subject _ st Hg Hm).
  - intros _ w2 [Hi2 Hle2]. split; [by apply inv_collect|].
    unfold collect_unready_tasks, modify. cbn [fst].
    by rewrite (gval_eq _ _ _ (collect_TASKS_NAME_ready w2 s n Hi2 Hs)).
Qed.

(** For a ready state [s] and any task name, the [tasks_by_name{s,name}]
    series never decreases while events are processed, one at a time or as
    a capture, from any reachable state: the aggregation pass never writes a
    pair with a ready state. *)
Theorem ready_name_counters_monotone w s n e es :
  reachable w -> is_ready s = true ->
  gval (TASKS_NAME w) (s, n) <= gval (TASKS_NAME (fst (process_event e w))) (s, n) /\
  gval (TASKS_NAME w) (s, n) <= gval (TASKS_NAME (fst (capture es w))) (s, n).
Proof.
  intros Hreach Hs. split.
  { apply process_event_ready_name_mono; [by apply reachable_inv|done]. }
  revert w Hreach. induction es as [|e' es IH]; intros w Hreach; simpl; [lia|].
  unfold bind. pose proof (reach_event w e' Hreach) as Hr1.
  destruct (process_event_ready_name_mono w e' s n (reachable_inv w Hreach) Hs) as [_ Hle].
  destruct (process_event e' w) as [w1 [x|y]]; simpl in *; [done|].
  specialize (IH w1 Hr1). lia.
Qed.

Lemma ready_name_counters_monotone_witness :
  let w0 := fst (process_event (ev "task-received" "a" 1 (Some "add") None) (init_world 1)) in
  gval (TASKS_NAME w0) (SUCCESS, "add") <=
    gval (TASKS_NAME (fst (process_event (ev "task-received" "b" 2 (Some "mul") None) w0)))
      (SUCCESS, "add") /\
  gval (TASKS_NAME w0) (SUCCESS, "add") <=
    gval (TASKS_NAME (fst (capture [ev "task-received" "b" 2 (Some "mul") None;
                                    ev "task-succeeded" "a" 3 None None] w0))) (SUCCESS, "add").
Proof.
  intros w0. apply ready_name_counters_monotone.
  - apply reach_event, reach_init.
  - vm_compute. reflexivity.
Defined.
